(** * vent (event_app): credential and token-safety core

    A shallow embedding of the parts of [event_app/utils.py] and
    [event_app/models.py] that carry the invariants of the application:
    the password composition policy ([PasswordRules]), salted password
    hashing ([User.password], [User.check_password]), collision-checked
    identifier generation ([Event.generate_id]) and the open-redirect check
    ([is_safe_url]).

    Python values are modelled as follows: a [str] is the list of its code
    points, an [int] is a [Z], [None]-able arguments are [option]s, a
    [collections.Counter] is a [gmap] from its keys to [Z], the [events]
    table is a [gmap] from primary key to row, and a call that may raise
    returns a [result]. *)

From Stdlib Require Import ZArith NArith List String Ascii Lia Bool.
From Stdlib Require Import DecimalString DecimalPos DecimalZ.
From stdpp Require Import base option gmap strings list.
Import ListNotations.

Local Open Scope Z_scope.

(** ** Python runtime: strings, exceptions *)

Module Py.

(** A Python [str] is a sequence of Unicode code points. *)
Definition codepoint : Type := N.
Definition str : Type := list N.

(** [lit "abc"] is the Python literal ['abc'] (ASCII text only). *)
Definition lit (s : string) : str :=
  map N_of_ascii (list_ascii_of_string s).

Definition str_eqb (a b : str) : bool := bool_decide (a = b).

(** The exceptions that the modelled code can raise, by class. *)
Inductive exn : Type :=
| ValueError (msg : str)
| TypeError (msg : str)
| IndexError (msg : str)
| ValidationError (msg : str).

Inductive result (A : Type) : Type :=
| Ok (a : A)
| Raise (e : exn).
Global Arguments Ok {A} a.
Global Arguments Raise {A} e.

Definition bind {A B : Type} (m : result A) (k : A -> result B) : result B :=
  match m with
  | Ok a => k a
  | Raise e => Raise e
  end.

(** [str(n)] and ["{}".format(n)] for an [int]: decimal digits, with a
    leading minus sign for a negative number. *)
Definition str_of_int (n : Z) : str :=
  lit (NilZero.string_of_int (Z.to_int n)).

(** [len(s)] *)
Definition len {A : Type} (s : list A) : Z := Z.of_nat (length s).

(** [c in s] for a one-character [c] *)
Definition contains (s : str) (c : codepoint) : bool :=
  existsb (N.eqb c) s.

(** Normalisation of a slice bound [i] for a sequence of length [n]: a
    negative bound counts from the end, and every bound is clipped. *)
Definition slice_bound (n : nat) (i : Z) : nat :=
  if i <? 0 then Z.to_nat (Z.max 0 (i + Z.of_nat n)) else Z.to_nat i.

(** [s[:i]] and [s[i:]] *)
Definition slice_to {A : Type} (s : list A) (i : Z) : list A :=
  take (slice_bound (length s) i) s.
Definition slice_from {A : Type} (s : list A) (i : Z) : list A :=
  drop (slice_bound (length s) i) s.
(** [s[i:j]] *)
Definition slice {A : Type} (s : list A) (i j : Z) : list A :=
  let lo := slice_bound (length s) i in
  let hi := slice_bound (length s) j in
  take (hi - lo)%nat (drop lo s).

(** [s.find(c)]: the index of the first [c], or -1. *)
Fixpoint find_aux (s : str) (c : codepoint) (k : Z) : Z :=
  match s with
  | [] => -1
  | x :: rest => if N.eqb x c then k else find_aux rest c (k + 1)
  end.
Definition find (s : str) (c : codepoint) : Z := find_aux s c 0.

(** [s.find(c, start)] *)
Definition find_start (s : str) (c : codepoint) (start : Z) : Z :=
  let lo := slice_bound (length s) start in
  find_aux (drop lo s) c (Z.of_nat lo).

(** [s.rfind(c)]: the index of the last [c], or -1. *)
Fixpoint rfind_aux (s : str) (c : codepoint) (k : Z) (last : Z) : Z :=
  match s with
  | [] => last
  | x :: rest =>
      rfind_aux rest c (k + 1) (if N.eqb x c then k else last)
  end.
Definition rfind (s : str) (c : codepoint) : Z := rfind_aux s c 0 (-1).

(** [s.split(c)]: the pieces between the occurrences of [c]. *)
Fixpoint split (s : str) (c : codepoint) : list str :=
  match s with
  | [] => [[]]
  | x :: rest =>
      if N.eqb x c then [] :: split rest c
      else match split rest c with
           | piece :: pieces => (x :: piece) :: pieces
           | [] => [[x]]
           end
  end.

(** [s.partition(c)]: the parts before and after the first [c], and
    whether [c] was found; without [c], everything is in the first part. *)
Definition partition (s : str) (c : codepoint) : str * bool * str :=
  let i := find s c in
  if i <? 0 then (s, false, [])
  else (slice_to s i, true, slice_from s (i + 1)).

(** [s.rpartition(c)]: the same at the last [c]; without [c], everything
    is in the last part. *)
Definition rpartition (s : str) (c : codepoint) : str * bool * str :=
  let i := rfind s c in
  if i <? 0 then ([], false, s)
  else (slice_to s i, true, slice_from s (i + 1)).

(** [s.split(c, 1)] when [c in s]: the parts around the first [c]. *)
Definition split1 (s : str) (c : codepoint) : str * str :=
  let '(before, _, after) := partition s c in (before, after).

(** [c.join(pieces)] *)
Fixpoint join (c : codepoint) (pieces : list str) : str :=
  match pieces with
  | [] => []
  | [piece] => piece
  | piece :: rest => piece ++ c :: join c rest
  end.

(** [s.replace(c, "")] *)
Definition remove (s : str) (c : codepoint) : str :=
  List.filter (fun x => negb (N.eqb x c)) s.

(** [s.lstrip(chars)], [s.rstrip(chars)] and [s.strip(chars)] *)
Fixpoint lstrip (s : str) (chars : codepoint -> bool) : str :=
  match s with
  | [] => []
  | x :: rest => if chars x then lstrip rest chars else s
  end.
Definition rstrip (s : str) (chars : codepoint -> bool) : str :=
  rev (lstrip (rev s) chars).
Definition strip (s : str) (chars : codepoint -> bool) : str :=
  rstrip (lstrip s chars) chars.

(** [s.isascii()] *)
Definition isascii (s : str) : bool := forallb (fun c => N.ltb c 128) s.

Definition in_range (lo hi c : N) : bool := N.leb lo c && N.leb c hi.
Definition is_ascii_upper (c : codepoint) : bool := in_range 65 90 c.
Definition is_ascii_lower (c : codepoint) : bool := in_range 97 122 c.
Definition is_ascii_digit (c : codepoint) : bool := in_range 48 57 c.

(** [s.lower()] on ASCII text. *)
Definition ascii_lower (s : str) : str :=
  map (fun c => if is_ascii_upper c then (c + 32)%N else c) s.

(** One-character literals. *)
Definition chr (s : string) : codepoint :=
  match lit s with
  | c :: _ => c
  | [] => 0%N
  end.

End Py.

Import Py.

Global Instance result_ret : MRet result := @Ok.
Global Instance result_bind : MBind result := fun A B k m => Py.bind m k.

(** ** The standard library's urllib.parse (CPython 3.11)

    [is_safe_url] is written on top of [urlparse] and [urljoin].  They are
    transcribed here for [str] arguments; the two checks that [urlsplit]
    delegates to other modules ([unicodedata.normalize] and
    [ipaddress.ip_address]) are an interface. *)

Inductive ip_version : Type := IPv4Address | IPv6Address.

Class UrlDeps : Type := {
  (** [unicodedata.normalize('NFKC', s)] *)
  normalize_NFKC : str -> str;
  (** [ipaddress.ip_address(s)], which raises [ValueError] on a string
      that is no address *)
  ip_address : str -> result ip_version
}.

Module Urllib.

Definition uses_relative : list str :=
  map lit ["" ; "ftp"; "http"; "gopher"; "nntp"; "imap";
           "wais"; "file"; "https"; "shttp"; "mms";
           "prospero"; "rtsp"; "rtspu"; "sftp";
           "svn"; "svn+ssh"; "ws"; "wss"]%string.

Definition uses_netloc : list str :=
  map lit ["" ; "ftp"; "http"; "gopher"; "nntp"; "telnet";
           "imap"; "wais"; "file"; "mms"; "https"; "shttp";
           "snews"; "prospero"; "rtsp"; "rtspu"; "rsync";
           "svn"; "svn+ssh"; "sftp"; "nfs"; "git"; "git+ssh";
           "ws"; "wss"]%string.

Definition uses_params : list str :=
  map lit ["" ; "ftp"; "hdl"; "prospero"; "http"; "imap";
           "https"; "shttp"; "rtsp"; "rtspu"; "sip"; "sips";
           "mms"; "sftp"; "tel"]%string.

Definition scheme_chars : str :=
  lit "abcdefghijklmnopqrstuvwxyz" ++ lit "ABCDEFGHIJKLMNOPQRSTUVWXYZ"
  ++ lit "0123456789" ++ lit "+-.".

(** [_WHATWG_C0_CONTROL_OR_SPACE]: the code points 0 to 0x20. *)
Definition _WHATWG_C0_CONTROL_OR_SPACE (c : codepoint) : bool :=
  N.leb c 32.

(** [_UNSAFE_URL_BYTES_TO_REMOVE = ['\t', '\r', '\n']] *)
Definition _UNSAFE_URL_BYTES_TO_REMOVE : list codepoint := [9; 13; 10]%N.

Definition member (x : str) (l : list str) : bool :=
  existsb (str_eqb x) l.

Record SplitResult : Type := mkSplit {
  s_scheme : str;
  s_netloc : str;
  s_path : str;
  s_query : str;
  s_fragment : str
}.

Record ParseResult : Type := mkParse {
  scheme : str;
  netloc : str;
  path : str;
  params : str;
  query : str;
  fragment : str
}.

Definition _splitparams (url : str) : str * str :=
  if contains url (chr "/") then
    let i := find_start url (chr ";") (rfind url (chr "/")) in
    if i <? 0 then (url, [])
    else (slice_to url i, slice_from url (i + 1))
  else
    let i := find url (chr ";") in
    (slice_to url i, slice_from url (i + 1)).

Definition _splitnetloc (url : str) (start : Z) : str * str :=
  let delim := len url in
  let delim :=
    fold_left
      (fun delim c =>
         let wdelim := find_start url c start in
         if wdelim >=? 0 then Z.min delim wdelim else delim)
      (lit "/?#") delim in
  (slice url start delim, slice_from url delim).

Definition _checknetloc `{UrlDeps} (netloc : str) : result unit :=
  if str_eqb netloc [] || isascii netloc then Ok tt
  else
    let n := remove netloc (chr "@") in
    let n := remove n (chr ":") in
    let n := remove n (chr "#") in
    let n := remove n (chr "?") in
    let netloc2 := normalize_NFKC n in
    if str_eqb n netloc2 then Ok tt
    else if existsb (contains netloc2) (lit "/?#@:")
    then Raise (ValueError
                  (lit "netloc '" ++ netloc ++ lit "' contains invalid "
                   ++ lit "characters under NFKC normalization"))
    else Ok tt.

Definition is_hex (c : codepoint) : bool :=
  in_range 97 102 c || in_range 65 70 c || is_ascii_digit c.

(** [re.match(r"\Av[a-fA-F0-9]+\..+\Z", hostname)] *)
Definition match_ipvfuture (hostname : str) : bool :=
  match hostname with
  | v :: rest =>
      N.eqb v (chr "v")
      && match rest with
         | h :: _ => is_hex h
         | [] => false
         end
      && match lstrip rest is_hex with
         | dot :: tail =>
             N.eqb dot (chr ".")
             && negb (str_eqb tail [])
             && forallb (fun c => negb (N.eqb c 10)) tail
         | [] => false
         end
  | [] => false
  end.

Definition startswith (s : str) (c : codepoint) : bool :=
  match s with
  | x :: _ => N.eqb x c
  | [] => false
  end.

Definition _check_bracketed_host `{UrlDeps} (hostname : str) : result unit :=
  if startswith hostname (chr "v") then
    if negb (match_ipvfuture hostname)
    then Raise (ValueError (lit "IPvFuture address is invalid"))
    else Ok tt
  else
    ip ← ip_address hostname;
    match ip with
    | IPv4Address =>
        Raise (ValueError (lit "An IPv4 address cannot be in brackets"))
    | IPv6Address => Ok tt
    end.

Definition _check_bracketed_netloc `{UrlDeps} (netloc : str) : result unit :=
  let hostname_and_port := snd (rpartition netloc (chr "@")) in
  let '(before_bracket, have_open_br, bracketed) :=
    partition hostname_and_port (chr "[") in
  if have_open_br : bool then
    if negb (str_eqb before_bracket [])
    then Raise (ValueError (lit "Invalid IPv6 URL"))
    else
      let '(hostname, _, port) := partition bracketed (chr "]") in
      if negb (str_eqb port []) && negb (startswith port (chr ":"))
      then Raise (ValueError (lit "Invalid IPv6 URL"))
      else _check_bracketed_host hostname
  else
    let '(hostname, _, port) := partition hostname_and_port (chr ":") in
    _check_bracketed_host hostname.

Definition is_ascii_alpha (c : codepoint) : bool :=
  is_ascii_upper c || is_ascii_lower c.

(** The scheme test at the head of [urlsplit]: with [i = url.find(':')],
    [url[:i]] is a scheme when [i > 0], [url[0]] is an ASCII letter and
    every character before the colon is in [scheme_chars]. *)
Definition split_scheme (url scheme : str) : str * str :=
  let i := find url (chr ":") in
  if (i >? 0)
     && match url with
        | c :: _ => N.ltb c 128 && is_ascii_alpha c
        | [] => false
        end
  then
    if forallb (contains scheme_chars) (slice_to url i)
    then (ascii_lower (slice_to url i), slice_from url (i + 1))
    else (scheme, url)
  else (scheme, url).

Definition urlsplit `{UrlDeps} (url scheme : str) (allow_fragments : bool)
  : result SplitResult :=
  let url := lstrip url _WHATWG_C0_CONTROL_OR_SPACE in
  let scheme := strip scheme _WHATWG_C0_CONTROL_OR_SPACE in
  let url := fold_left remove _UNSAFE_URL_BYTES_TO_REMOVE url in
  let scheme := fold_left remove _UNSAFE_URL_BYTES_TO_REMOVE scheme in
  let netloc : str := [] in
  let query : str := [] in
  let fragment : str := [] in
  let '(scheme, url) := split_scheme url scheme in
  '(netloc, url) ←
    (if str_eqb (slice_to url 2) (lit "//") then
       let '(netloc, url) := _splitnetloc url 2 in
       if (contains netloc (chr "[") && negb (contains netloc (chr "]")))
          || (contains netloc (chr "]") && negb (contains netloc (chr "[")))
       then Raise (ValueError (lit "Invalid IPv6 URL"))
       else
         _ ← (if contains netloc (chr "[") && contains netloc (chr "]")
              then _check_bracketed_netloc netloc
              else Ok tt);
         Ok (netloc, url)
     else Ok (netloc, url));
  let '(url, fragment) :=
    if allow_fragments && contains url (chr "#")
    then split1 url (chr "#")
    else (url, fragment) in
  let '(url, query) :=
    if contains url (chr "?")
    then split1 url (chr "?")
    else (url, query) in
  _ ← _checknetloc netloc;
  Ok (mkSplit scheme netloc url query fragment).

Definition urlparse_with `{UrlDeps} (url scheme : str)
    (allow_fragments : bool) : result ParseResult :=
  splitresult ← urlsplit url scheme allow_fragments;
  let '(mkSplit scheme netloc url query fragment) := splitresult in
  let '(url, params) :=
    if member scheme uses_params && contains url (chr ";")
    then _splitparams url
    else (url, []) in
  Ok (mkParse scheme netloc url params query fragment).

(** [urlparse(url)], with the default [scheme=''] and
    [allow_fragments=True]. *)
Definition urlparse `{UrlDeps} (url : str) : result ParseResult :=
  urlparse_with url [] true.

(** Truth value of a [str]: non-empty. *)
Definition truthy (s : str) : bool := negb (str_eqb s []).

Definition urlunsplit (scheme netloc url query fragment : str) : str :=
  let url :=
    if truthy netloc
       || (truthy scheme && member scheme uses_netloc
           && negb (str_eqb (slice_to url 2) (lit "//")))
    then
      let url :=
        if truthy url && negb (str_eqb (slice_to url 1) (lit "/"))
        then lit "/" ++ url
        else url in
      lit "//" ++ netloc ++ url
    else url in
  let url := if truthy scheme then scheme ++ lit ":" ++ url else url in
  let url := if truthy query then url ++ lit "?" ++ query else url in
  let url := if truthy fragment then url ++ lit "#" ++ fragment else url in
  url.

Definition urlunparse (p : ParseResult) : str :=
  let url :=
    if truthy (params p) then path p ++ lit ";" ++ params p else path p in
  urlunsplit (scheme p) (netloc p) url (query p) (fragment p).

(** [segments[1:-1] = filter(None, segments[1:-1])]: the empty pieces
    strictly between the first and the last one are dropped. *)
Definition filter_inner (segments : list str) : list str :=
  match segments with
  | [] => []
  | first :: rest =>
      match rest with
      | [] => [first]
      | _ => first :: List.filter truthy (removelast rest)
               ++ [List.last rest []]
      end
  end.

(** Body of [for seg in segments]. *)
Definition resolve_step (resolved_path : list str) (seg : str) : list str :=
  if str_eqb seg (lit "..") then removelast resolved_path
  else if str_eqb seg (lit ".") then resolved_path
  else resolved_path ++ [seg].

Definition urljoin `{UrlDeps} (base url : str) : result str :=
  if negb (truthy base) then Ok url
  else if negb (truthy url) then Ok base
  else
    b ← urlparse_with base [] true;
    u ← urlparse_with url (scheme b) true;
    if negb (str_eqb (scheme u) (scheme b))
       || negb (member (scheme u) uses_relative)
    then Ok url
    else if member (scheme u) uses_netloc && truthy (netloc u)
    then Ok (urlunparse u)
    else
      let netloc' :=
        if member (scheme u) uses_netloc then netloc b else netloc u in
      if negb (truthy (path u)) && negb (truthy (params u)) then
        let query' := if negb (truthy (query u)) then query b else query u in
        Ok (urlunparse
              (mkParse (scheme u) netloc' (path b) (params b) query'
                       (fragment u)))
      else
        let base_parts := split (path b) (chr "/") in
        let base_parts :=
          if negb (str_eqb (List.last base_parts []) [])
          then removelast base_parts
          else base_parts in
        let segments :=
          if str_eqb (slice_to (path u) 1) (lit "/")
          then split (path u) (chr "/")
          else filter_inner (base_parts ++ split (path u) (chr "/")) in
        let resolved_path := fold_left resolve_step segments [] in
        let resolved_path :=
          if member (List.last segments []) [lit "."; lit ".."]
          then resolved_path ++ [[]]
          else resolved_path in
        let joined := join (chr "/") resolved_path in
        Ok (urlunparse
              (mkParse (scheme u) netloc'
                       (if truthy joined then joined else lit "/")
                       (params u) (query u) (fragment u))).

(** [ParseResult._hostinfo]: the host and the port of the network
    location, as written; the user information up to the last "@" is left
    out, and a missing or empty port is [None]. *)
Definition _hostinfo (self : ParseResult) : str * option str :=
  let netloc := netloc self in
  let '(_, _, hostinfo) := rpartition netloc (chr "@") in
  let '(_, have_open_br, bracketed) := partition hostinfo (chr "[") in
  let '(hostname, port) :=
    if have_open_br then
      let '(hostname, _, port) := partition bracketed (chr "]") in
      let '(_, _, port) := partition port (chr ":") in
      (hostname, port)
    else
      let '(hostname, _, port) := partition hostinfo (chr ":") in
      (hostname, port) in
  (hostname, if negb (truthy port) then None else Some port).

End Urllib.

(** ** event_app/utils.py: PasswordRules *)

Module PasswordRules.

Definition UPPERCASE : gset codepoint :=
  list_to_set (lit "ABCDEFGHIJKLMNOPQRSTUVWXYZ").
Definition LOWERCASE : gset codepoint :=
  list_to_set (lit "abcdefghijklmnopqrstuvwxyz").
Definition DIGITS : gset codepoint :=
  list_to_set (lit "0123456789").

(** The instance attributes set by [__init__]. *)
Record t : Type := Build {
  uppercase : option Z;
  lowercase : option Z;
  digits : option Z;
  special : option Z;
  length : option Z
}.

(** Default value of the [length] argument of [__init__]. *)
Definition default_length : option Z := Some 10.

(** [a = lambda x: 0 if x is None else x] *)
Definition a (x : option Z) : Z :=
  match x with
  | None => 0
  | Some v => v
  end.

Definition __init__ (uppercase lowercase digits special length : option Z)
  : result t :=
  let self := Build uppercase lowercase digits special length in
  match length with
  | Some len =>
      if a uppercase + a lowercase + a digits + a special >? len
      then Raise (ValueError (lit "Length must be >= sum of requirements"))
      else Ok self
  | None => Ok self
  end.

(** A [collections.Counter]: a missing key reads as 0. *)
Definition counter_get (counter : gmap string Z) (key : string) : Z :=
  default 0 (counter !! key).

(** [counter[key] += 1] *)
Definition counter_incr (key : string) (counter : gmap string Z)
  : gmap string Z :=
  <[key := counter_get counter key + 1]> counter.

(** [Counter(uppercase=0, lowercase=0, digits=0, special=0)] *)
Definition counter_init : gmap string Z :=
  <["special" := 0]> (<["digits" := 0]> (<["lowercase" := 0]>
    (<["uppercase" := 0]> ∅))).

(** Body of the [for char in password] loop. *)
Definition count_step (counter : gmap string Z) (char : codepoint)
  : gmap string Z :=
  if bool_decide (char ∈ UPPERCASE) then counter_incr "uppercase" counter
  else if bool_decide (char ∈ LOWERCASE) then counter_incr "lowercase" counter
  else if bool_decide (char ∈ DIGITS) then counter_incr "digits" counter
  else counter_incr "special" counter.

Definition count_characters (password : str) : gmap string Z :=
  fold_left count_step password counter_init.

(** ['s' if n != 1 else ''] *)
Definition plural (n : Z) : str :=
  if n =? 1 then lit "" else lit "s".

(** ["Need at least {} <what>{}".format(n, 's' if n != 1 else '')] *)
Definition need_at_least (what : string) (n : Z) : str :=
  lit "Need at least " ++ str_of_int n ++ lit " " ++ lit what ++ plural n.

(** ["Password must be at least {} characters".format(n)] *)
Definition must_be_at_least (n : Z) : str :=
  lit "Password must be at least " ++ str_of_int n ++ lit " characters".

(** [if minimum is not None and (minimum > count): errors.append(msg)] *)
Definition check_class (minimum : option Z) (count : Z) (what : string)
    (errors : list str) : list str :=
  match minimum with
  | Some n => if n >? count then errors ++ [need_at_least what n] else errors
  | None => errors
  end.

(** [if self.length > len(password): errors.append(msg)].  Comparing
    [None] with an [int] raises [TypeError]. *)
Definition check_length (length : option Z) (password : str)
    (errors : list str) : result (list str) :=
  match length with
  | Some l =>
      if l >? len password
      then Ok (errors ++ [must_be_at_least l])
      else Ok errors
  | None =>
      Raise (TypeError
        (lit "'>' not supported between instances of 'NoneType' and 'int'"))
  end.

Definition validate (self : t) (password : str) (raise_error : bool)
  : result (list str) :=
  let char_count := count_characters password in
  let errors := [] in
  let errors := check_class (uppercase self)
                  (counter_get char_count "uppercase")
                  "uppercase character" errors in
  let errors := check_class (lowercase self)
                  (counter_get char_count "lowercase")
                  "lowercase character" errors in
  let errors := check_class (digits self)
                  (counter_get char_count "digits")
                  "digit" errors in
  let errors := check_class (special self)
                  (counter_get char_count "special")
                  "special character" errors in
  errors ← check_length (length self) password errors;
  match raise_error, errors with
  | true, first :: _ => Raise (ValidationError first)
  | _, _ => Ok errors
  end.

(** [__call__(self, form, field)], the WTForms validator; [data] is
    [field.data]. *)
Definition __call__ (self : t) (data : str) : result (list str) :=
  validate self data true.

End PasswordRules.

(** ** The standard library's uuid.uuid4().hex (CPython 3.11)

    [User.__init__] draws its salt with [uuid.uuid4().hex].  [uuid4] is
    [UUID(bytes=os.urandom(16), version=4)]; the sixteen random bytes are
    an argument here. *)

Module Uuid.

(** [int.from_bytes(bytes)], big endian. *)
Definition int_from_bytes (bytes : list N) : N :=
  fold_left (fun acc b => (acc * 256 + b)%N) bytes 0%N.

(** One digit of ['%x']. *)
Definition hex_digit (d : N) : codepoint :=
  if N.ltb d 10 then (48 + d)%N else (87 + d)%N.

(** ['%x' % n]: the hexadecimal digits of [n], most significant first. *)
Fixpoint hex_digits (fuel : nat) (n : N) (acc : str) : str :=
  match fuel with
  | O => acc
  | S fuel' =>
      let acc' := hex_digit (n mod 16) :: acc in
      if N.eqb (n / 16) 0 then acc' else hex_digits fuel' (n / 16) acc'
  end.
Definition format_x (n : N) : str :=
  hex_digits (S (N.to_nat (N.log2 n))) n [].

(** ['%032x' % n]: the same, padded with zeros to 32 characters. *)
Definition format_032x (n : N) : str :=
  let digits := format_x n in
  repeat 48%N (32 - length digits) ++ digits.

(** [UUID(bytes=bytes, version=4).hex] *)
Definition uuid4_hex (bytes : list N) : result str :=
  if negb (Nat.eqb (length bytes) 16)
  then Raise (ValueError (lit "bytes is not a 16-char string"))
  else
    let int := int_from_bytes bytes in
    if negb (N.ltb int (N.shiftl 1 128))
    then Raise (ValueError (lit "int is out of range (need a 128-bit value)"))
    else
      let int := N.ldiff int (N.shiftl 49152 48) in
      let int := N.lor int (N.shiftl 32768 48) in
      let int := N.ldiff int (N.shiftl 61440 64) in
      let int := N.lor int (N.shiftl 4 76) in
      Ok (format_032x int).

End Uuid.

(** ** event_app/models.py: User *)

(** The [bcrypt] object of [event_app/extensions.py] (Flask-Bcrypt), an
    external collaborator: [generate_password_hash] draws its own internal
    salt from [entropy], and both calls may raise. *)
Class Bcrypt : Type := {
  entropy : Type;
  generate_password_hash : str -> entropy -> result (list N);
  check_password_hash : list N -> str -> result bool;
  (** the longest input, in characters, that the primitive hashes in full *)
  max_input_length : nat
}.

(** The contract of the primitive: a digest verifies against the input it
    was produced from. *)
Class BcryptCorrect (B : Bcrypt) : Prop := {
  check_generate :
    forall (password : str) (e : entropy) (digest : list N),
      generate_password_hash password e = Ok digest ->
      check_password_hash digest password = Ok true
}.

Module User.

Record t : Type := Build {
  id : Z;
  first_name : str;
  last_name : option str;
  email : str;
  email_verified : bool;
  _password : list N;
  salt : str
}.

(** [self._password = value] *)
Definition set__password (self : t) (value : list N) : t :=
  Build (id self) (first_name self) (last_name self) (email self)
        (email_verified self) value (salt self).

(** The getter of the hybrid property [password]. *)
Definition password (self : t) : list N := _password self.

(** The setter of [password]: [user.password = plain_password]. *)
Definition password_setter `{Bcrypt} (self : t) (plain_password : str)
    (e : entropy) : result t :=
  let salted_password := plain_password ++ salt self in
  digest ← generate_password_hash salted_password e;
  Ok (set__password self digest).

Definition check_password `{Bcrypt} (self : t) (plain_password : str)
  : result bool :=
  let salted_password := plain_password ++ salt self in
  check_password_hash (password self) salted_password.

(** [self.salt = value] *)
Definition set_salt (self : t) (value : str) : t :=
  Build (id self) (first_name self) (last_name self) (email self)
        (email_verified self) (_password self) value.

(** [__init__(self, first_name, email, password, **kwargs)]; [self] is the
    object as [Model.__init__] leaves it, [random_bytes] the bytes that
    [uuid4] reads from [os.urandom(16)]. *)
Definition __init__ `{Bcrypt} (self : t) (password : str)
    (random_bytes : list N) (e : entropy) : result t :=
  value ← Uuid.uuid4_hex random_bytes;
  password_setter (set_salt self value) password e.

End User.

(** ** event_app/models.py: Event *)

(** The process-wide generator behind [random.choice]: [randbelow s n]
    returns an index below [n] and the next generator state. *)
Class RandomSource : Type := {
  rng : Type;
  randbelow : rng -> nat -> nat * rng
}.

(** The contract of [randbelow]: the index is below the bound. *)
Class RandomSourceCorrect (R : RandomSource) : Prop := {
  randbelow_lt :
    forall (s : rng) (n : nat), (0 < n)%nat -> (fst (randbelow s n) < n)%nat
}.

Module Event.

Record t : Type := Build {
  id : str;
  name : str;
  description : option str;
  private : bool;
  owner_id : Z
}.

(** [Event.id.type.length], from [id = Column(db.String(10), ...)]. *)
Definition id_type_length : nat := 10.

(** [string.ascii_letters + string.digits] *)
Definition alphabet : str :=
  lit "abcdefghijklmnopqrstuvwxyzABCDEFGHIJKLMNOPQRSTUVWXYZ" ++ lit "0123456789".

(** [random.choice(seq)]: [seq[randbelow(len(seq))]]; an empty sequence
    raises [IndexError]. *)
Definition random_choice `{RandomSource} (seq : str) (s : rng)
  : result codepoint * rng :=
  match seq with
  | [] => (Raise (IndexError (lit "Cannot choose from an empty sequence")), s)
  | _ =>
      let '(i, s') := randbelow s (length seq) in
      match seq !! i with
      | Some c => (Ok c, s')
      | None => (Raise (IndexError (lit "string index out of range")), s')
      end
  end.

(** [''.join(random.choice(alphabet) for x in range(length))] *)
Fixpoint draw `{RandomSource} (length : nat) (s : rng) : result str * rng :=
  match length with
  | O => (Ok [], s)
  | S n =>
      match random_choice alphabet s with
      | (Ok c, s') =>
          match draw n s' with
          | (Ok rest, s'') => (Ok (c :: rest), s'')
          | (Raise e, s'') => (Raise e, s'')
          end
      | (Raise e, s') => (Raise e, s')
      end
  end.

(** [Event.query.get(temp_id)]: the row with that primary key, if any. *)
Definition query_get (events : gmap str t) (temp_id : str) : option t :=
  events !! temp_id.

(** What one pass through the body of [while True] does. *)
Inductive step_result `{RandomSource} : Type :=
| Return (temp_id : str) (s : rng)
| Continue (s : rng)
| Raised (e : exn) (s : rng).

Definition generate_id_body `{RandomSource} (events : gmap str t) (s : rng)
  : step_result :=
  let length := id_type_length in
  match draw length s with
  | (Ok temp_id, s') =>
      match query_get events temp_id with
      | None => Return temp_id s'
      | Some _ => Continue s'
      end
  | (Raise e, s') => Raised e s'
  end.

(** The loop of [generate_id], run for at most [fuel] passes: [None]
    means that the loop is still running after [fuel] passes. *)
Fixpoint generate_id `{RandomSource} (fuel : nat) (events : gmap str t)
    (s : rng) : option (result str * rng) :=
  match fuel with
  | O => None
  | S fuel' =>
      match generate_id_body events s with
      | Return temp_id s' => Some (Ok temp_id, s')
      | Continue s' => generate_id fuel' events s'
      | Raised e s' => Some (Raise e, s')
      end
  end.

(** The generator state at the start of pass [k] (counting from 0),
    when no earlier pass has left the loop. *)
Fixpoint state_at `{RandomSource} (k : nat) (s : rng) : rng :=
  match k with
  | O => s
  | S k' => state_at k' (snd (draw id_type_length s))
  end.

(** The candidate drawn in pass [k]. *)
Definition candidate_at `{RandomSource} (k : nat) (s : rng) : result str :=
  fst (draw id_type_length (state_at k s)).

(** [self.id = value] *)
Definition set_id (self : t) (value : str) : t :=
  Build value (name self) (description self) (private self) (owner_id self).

(** [__init__(self, **kwargs)]; [self] is the object as [Model.__init__]
    leaves it, with whatever the caller passed as [id]. *)
Definition __init__ `{RandomSource} (fuel : nat) (events : gmap str t)
    (self : t) (s : rng) : option (result t * rng) :=
  match generate_id fuel events s with
  | None => None
  | Some (Ok temp_id, s') => Some (Ok (set_id self temp_id), s')
  | Some (Raise e, s') => Some (Raise e, s')
  end.

(** [Event.query.get] as the database call that it is: it answers with a
    row or with [None], or it raises. *)
Definition query : Type := str -> result (option t).

(** A table behind a database that always answers. *)
Definition query_of_table (events : gmap str t) : query :=
  fun temp_id => Ok (query_get events temp_id).

(** The body of the loop and the loop of [generate_id], with the query
    given as a call that may raise. *)
Definition generate_id_body_with `{RandomSource} (get : query) (s : rng)
  : step_result :=
  let length := id_type_length in
  match draw length s with
  | (Ok temp_id, s') =>
      match get temp_id with
      | Ok None => Return temp_id s'
      | Ok (Some _) => Continue s'
      | Raise e => Raised e s'
      end
  | (Raise e, s') => Raised e s'
  end.

Fixpoint generate_id_with `{RandomSource} (fuel : nat) (get : query)
    (s : rng) : option (result str * rng) :=
  match fuel with
  | O => None
  | S fuel' =>
      match generate_id_body_with get s with
      | Return temp_id s' => Some (Ok temp_id, s')
      | Continue s' => generate_id_with fuel' get s'
      | Raised e s' => Some (Raise e, s')
      end
  end.

End Event.

(** ** event_app/utils.py: is_safe_url *)

Module Utils.

(** [is_safe_url(target)], with [request.host_url] as an argument. *)
Definition is_safe_url `{UrlDeps} (host_url target : str) : result bool :=
  ref_url ← Urllib.urlparse host_url;
  joined ← Urllib.urljoin host_url target;
  test_url ← Urllib.urlparse joined;
  Ok (Urllib.member (Urllib.scheme test_url) [lit "http"; lit "https"]
      && str_eqb (Urllib.netloc ref_url) (Urllib.netloc test_url)).

(** The response built by [flask.redirect(target)]. *)
Inductive response : Type :=
| redirect (target : str).

(** [redirect_with_next(endpoint, **values)]: [next] is
    [request.values.get('next')], and [url_for] is the outcome of
    [url_for(endpoint, **values)], which is evaluated only when the client's
    target is not used. *)
Definition redirect_with_next `{UrlDeps} (host_url : str) (next : option str)
    (url_for : result str) : result response :=
  let fallback := target ← url_for; Ok (redirect target) in
  match next with
  | None => fallback
  | Some target =>
      if negb (Urllib.truthy target) then fallback
      else
        safe ← is_safe_url host_url target;
        if negb safe then fallback else Ok (redirect target)
  end.

End Utils.

(** ** Notions for stating how URLs are taken apart *)

Module UrlShape.

(** The characters that end the network location: "/", "?" and "#". *)
Definition is_delimiter (c : codepoint) : bool :=
  N.eqb c (chr "/") || N.eqb c (chr "?") || N.eqb c (chr "#").

(** Tab, carriage return and line feed, which [urlsplit] removes. *)
Definition is_unsafe (c : codepoint) : bool :=
  N.eqb c 9 || N.eqb c 13 || N.eqb c 10.

(** The longest prefix of [s] whose characters satisfy [f]; [lstrip s f] is
    what follows it. *)
Fixpoint take_while (f : codepoint -> bool) (s : str) : str :=
  match s with
  | [] => []
  | x :: rest => if f x then x :: take_while f rest else []
  end.

(** What [urlsplit] makes of its [url] and [scheme] arguments before it
    looks for the parts. *)
Definition remove_unsafe (s : str) : str :=
  fold_left remove Urllib._UNSAFE_URL_BYTES_TO_REMOVE s.
Definition clean (url : str) : str :=
  remove_unsafe (lstrip url Urllib._WHATWG_C0_CONTROL_OR_SPACE).
Definition clean_scheme (scheme : str) : str :=
  remove_unsafe (strip scheme Urllib._WHATWG_C0_CONTROL_OR_SPACE).

(** The network location and the rest of a URL without its scheme. *)
Definition split_authority (url : str) : str * str :=
  if str_eqb (slice_to url 2) (lit "//")
  then Urllib._splitnetloc url 2
  else ([], url).

(** The checks of [urlsplit] on the brackets of a network location. *)
Definition check_brackets `{UrlDeps} (netloc : str) : result unit :=
  if (contains netloc (chr "[") && negb (contains netloc (chr "]")))
     || (contains netloc (chr "]") && negb (contains netloc (chr "[")))
  then Raise (ValueError (lit "Invalid IPv6 URL"))
  else if contains netloc (chr "[") && contains netloc (chr "]")
       then Urllib._check_bracketed_netloc netloc
       else Ok tt.

(** A scheme name: an ASCII letter followed by characters of
    [scheme_chars]. *)
Definition is_scheme_name (s : str) : bool :=
  match s with
  | c :: _ => Urllib.is_ascii_alpha c
  | [] => false
  end
  && forallb (contains Urllib.scheme_chars) s.

(** The scheme, the network location and the rest that [urlsplit] finds in
    [url]; [default] is the [scheme] argument. *)
Definition scheme_of (url default : str) : str :=
  fst (Urllib.split_scheme (clean url) (clean_scheme default)).
Definition authority (url : str) : str :=
  fst (split_authority (snd (Urllib.split_scheme (clean url) []))).
Definition after_authority (url : str) : str :=
  snd (split_authority (snd (Urllib.split_scheme (clean url) []))).

(** All the checks of [urlsplit] on a network location. *)
Definition check_netloc `{UrlDeps} (netloc : str) : result unit :=
  _ ← check_brackets netloc; Urllib._checknetloc netloc.

(** A character that can stand inside a network location as [urlsplit]
    finds it: no delimiter, and none of the removed characters. *)
Definition is_netloc_char (c : codepoint) : bool :=
  negb (is_delimiter c) && negb (is_unsafe c).

End UrlShape.

(** ** Reference definitions, following the specification's wording *)

Module Spec.

(** The four character classes of the classifier. *)
Inductive char_class : Type := Upper | Lower | Digit | Special.

Global Instance char_class_eq_dec : EqDecision char_class.
Proof. solve_decision. Defined.

(** Uppercase ASCII letter, lowercase ASCII letter, ASCII digit, or
    "special" for everything else. *)
Definition classify (c : codepoint) : char_class :=
  if is_ascii_upper c then Upper
  else if is_ascii_lower c then Lower
  else if is_ascii_digit c then Digit
  else Special.

(** How many characters of [password] fall into class [k]. *)
Definition count_class (k : char_class) (password : str) : Z :=
  len (List.filter (fun c => bool_decide (classify c = k)) password).

(** The key under which [count_characters] files a class. *)
Definition key (k : char_class) : string :=
  match k with
  | Upper => "uppercase"
  | Lower => "lowercase"
  | Digit => "digits"
  | Special => "special"
  end.

(** The class minimum that a policy configures for class [k]. *)
Definition minimum (p : PasswordRules.t) (k : char_class) : option Z :=
  match k with
  | Upper => PasswordRules.uppercase p
  | Lower => PasswordRules.lowercase p
  | Digit => PasswordRules.digits p
  | Special => PasswordRules.special p
  end.

(** The name of a class, as the specification lists the classes. *)
Definition class_name (k : char_class) : string :=
  match k with
  | Upper => "uppercase"
  | Lower => "lowercase"
  | Digit => "digit"
  | Special => "special"
  end.

(** "Need at least N <class> character(s)", the trailing "s" omitted
    exactly when N = 1: the form that the specification gives for every
    class. *)
Definition uniform_class_message (k : char_class) (n : Z) : str :=
  lit "Need at least " ++ str_of_int n ++ lit " " ++ lit (class_name k)
  ++ lit " character" ++ (if n =? 1 then [] else lit "s").

(** What is counted, per class: the digit class is counted in "digit(s)",
    the other three in "<class> character(s)". *)
Definition noun (k : char_class) : string :=
  match k with
  | Upper => "uppercase character"
  | Lower => "lowercase character"
  | Digit => "digit"
  | Special => "special character"
  end.

(** "Need at least N <noun>(s)", the trailing "s" omitted exactly when
    N = 1. *)
Definition class_message (k : char_class) (n : Z) : str :=
  lit "Need at least " ++ str_of_int n ++ lit " " ++ lit (noun k)
  ++ (if n =? 1 then [] else lit "s").

(** "Password must be at least N characters" *)
Definition length_message (n : Z) : str :=
  lit "Password must be at least " ++ str_of_int n ++ lit " characters".

(** The message of class [k], present iff the class has a minimum and
    the password has strictly fewer characters of the class. *)
Definition class_deficiency (message : char_class -> Z -> str)
    (p : PasswordRules.t) (password : str) (k : char_class) : list str :=
  match minimum p k with
  | Some n => if count_class k password <? n then [message k n] else []
  | None => []
  end.

(** The length message, present iff the password is shorter than the
    minimum length. *)
Definition length_deficiency (p : PasswordRules.t) (password : str)
  : list str :=
  match PasswordRules.length p with
  | Some n => if len password <? n then [length_message n] else []
  | None => []
  end.

(** The deficiency messages in the fixed order uppercase, lowercase,
    digit, special, length. *)
Definition deficiencies (message : char_class -> Z -> str)
    (p : PasswordRules.t) (password : str) : list str :=
  class_deficiency message p password Upper
  ++ class_deficiency message p password Lower
  ++ class_deficiency message p password Digit
  ++ class_deficiency message p password Special
  ++ length_deficiency p password.

(** [msg] is a deficiency message of class [k], for some minimum. *)
Definition is_class_message (k : char_class) (msg : str) : Prop :=
  exists n : Z, msg = class_message k n.

(** The sum of the class minimums that are not [None]. *)
Definition sum_of_minimums (uppercase lowercase digits special : option Z)
  : Z :=
  default 0 uppercase + default 0 lowercase + default 0 digits
  + default 0 special.

(** An ASCII letter or digit. *)
Definition is_alphanumeric (c : codepoint) : Prop :=
  (65 <= c <= 90 \/ 97 <= c <= 122 \/ 48 <= c <= 57)%N.

End Spec.

(** ** Stand-ins for the external collaborators, used to run the code *)

Module Standins.

(** A generator that always answers 0: every draw is the first character
    of the alphabet. *)
Definition constant_source : RandomSource :=
  {| rng := unit; randbelow := fun _ _ => (0%nat, tt) |}.

(** A generator that walks through the indices: the state is a counter,
    reduced modulo the bound. *)
Definition counting_source : RandomSource :=
  {| rng := nat; randbelow := fun s n => (Nat.modulo s n, S s) |}.

(** A hashing primitive that, like bcrypt, reads only the first 72
    characters of its input: the digest is the internal salt followed by
    those characters. *)
Definition truncating_bcrypt : Bcrypt :=
  {| entropy := N;
     generate_password_hash := fun password e => Ok (e :: take 72 password);
     check_password_hash := fun digest password =>
       match digest with
       | _ :: body => Ok (str_eqb body (take 72 password))
       | [] => Raise (ValueError (lit "Invalid salt"))
       end;
     max_input_length := 72 |}.

Definition some_event (id : str) : Event.t :=
  Event.Build id (lit "launch party") None false 1.

(** An [events] table that already holds the identifier ["aaaaaaaaaa"]. *)
Definition taken_table : gmap str Event.t :=
  {[ lit "aaaaaaaaaa" := some_event (lit "aaaaaaaaaa") ]}.

(** An [events] table that already holds the identifier ["abcdefghij"]. *)
Definition busy_table : gmap str Event.t :=
  {[ lit "abcdefghij" := some_event (lit "abcdefghij") ]}.

Definition some_user (salt : str) : User.t :=
  User.Build 1 (lit "Ada") None (lit "ada@example.org") false [] salt.

(** A stand-in for [unicodedata] and [ipaddress], for URLs that are ASCII
    and have no brackets, where [urlsplit] consults neither. *)
Definition ascii_url_deps : UrlDeps :=
  {| normalize_NFKC := fun s => s;
     ip_address := fun _ => Raise (ValueError (lit "not an address")) |}.

(** A database that has a row for "abcdefghij" and fails on every other
    key; the exception stands for whatever the driver raises. *)
Definition failing_query : Event.query :=
  fun temp_id =>
    if str_eqb temp_id (lit "abcdefghij")
    then Ok (Some (some_event temp_id))
    else Raise (ValueError (lit "connection lost")).

End Standins.

(** * Properties *)

(** ** Character counts *)

Section CountCharacters.

Import PasswordRules Spec.

Lemma lit_range_elem (l : str) (lo n : nat) (c : codepoint) :
  l = map N.of_nat (seq lo n) ->
  c ∈ l <-> (N.of_nat lo <= c < N.of_nat (lo + n))%N.
Proof.
  intros ->. rewrite list_elem_of_In, in_map_iff. split.
  - intros (k & <- & Hk). apply in_seq in Hk. lia.
  - intros Hc. exists (N.to_nat c). split; [lia|]. apply in_seq. lia.
Qed.

Lemma in_range_spec (lo hi c : N) :
  in_range lo hi c = true <-> (lo <= c <= hi)%N.
Proof.
  unfold in_range. rewrite andb_true_iff, !N.leb_le. tauto.
Qed.

Lemma UPPERCASE_range (c : codepoint) :
  bool_decide (c ∈ UPPERCASE) = is_ascii_upper c.
Proof.
  apply eq_true_iff_eq. rewrite bool_decide_eq_true.
  unfold UPPERCASE, is_ascii_upper.
  rewrite elem_of_list_to_set, in_range_spec.
  rewrite (lit_range_elem _ 65 26) by reflexivity. lia.
Qed.

Lemma LOWERCASE_range (c : codepoint) :
  bool_decide (c ∈ LOWERCASE) = is_ascii_lower c.
Proof.
  apply eq_true_iff_eq. rewrite bool_decide_eq_true.
  unfold LOWERCASE, is_ascii_lower.
  rewrite elem_of_list_to_set, in_range_spec.
  rewrite (lit_range_elem _ 97 26) by reflexivity. lia.
Qed.

Lemma DIGITS_range (c : codepoint) :
  bool_decide (c ∈ DIGITS) = is_ascii_digit c.
Proof.
  apply eq_true_iff_eq. rewrite bool_decide_eq_true.
  unfold DIGITS, is_ascii_digit.
  rewrite elem_of_list_to_set, in_range_spec.
  rewrite (lit_range_elem _ 48 10) by reflexivity. lia.
Qed.

(** One pass of the loop increments the counter of the character's
    class and no other. *)
Lemma count_step_classify (counter : gmap string Z) (c : codepoint) :
  count_step counter c = counter_incr (key (classify c)) counter.
Proof.
  unfold count_step, classify.
  rewrite UPPERCASE_range, LOWERCASE_range, DIGITS_range.
  destruct (is_ascii_upper c); [reflexivity|].
  destruct (is_ascii_lower c); [reflexivity|].
  destruct (is_ascii_digit c); reflexivity.
Qed.

Lemma key_inj (j k : char_class) : key j = key k -> j = k.
Proof. destruct j, k; simpl; intros H; first [reflexivity | discriminate H]. Qed.

Lemma counter_get_incr (counter : gmap string Z) (j k : char_class) :
  counter_get (counter_incr (key j) counter) (key k)
  = counter_get counter (key k) + (if bool_decide (j = k) then 1 else 0).
Proof.
  unfold counter_incr, counter_get. case_bool_decide as Hjk.
  - subst. rewrite lookup_insert_eq. reflexivity.
  - rewrite lookup_insert_ne; [lia|]. intros H. apply Hjk, key_inj, H.
Qed.

(** Loop invariant of [count_characters], from any starting counter. *)
Lemma fold_count_step (password : str) (counter : gmap string Z)
    (k : char_class) :
  counter_get (fold_left count_step password counter) (key k)
  = counter_get counter (key k) + count_class k password.
Proof.
  revert counter. induction password as [|c rest IH]; intros counter.
  - unfold count_class, len. simpl. lia.
  - simpl fold_left. rewrite IH, count_step_classify, counter_get_incr.
    unfold count_class, len. simpl List.filter.
    case_bool_decide; simpl; lia.
Qed.

Lemma counter_init_zero (k : char_class) :
  counter_get counter_init (key k) = 0.
Proof. destruct k; reflexivity. Qed.

Lemma count_characters_class (password : str) (k : char_class) :
  counter_get (count_characters password) (key k) = count_class k password.
Proof.
  unfold count_characters. rewrite fold_count_step, counter_init_zero. lia.
Qed.

(** Every character is in exactly one class, so the class counts add up
    to the length. *)
Lemma count_class_total (password : str) :
  count_class Upper password + count_class Lower password
  + count_class Digit password + count_class Special password
  = len password.
Proof.
  unfold count_class, len. induction password as [|c rest IH]; [reflexivity|].
  simpl List.filter. destruct (classify c);
    repeat case_bool_decide; try congruence; simpl; lia.
Qed.

Lemma count_class_nonneg (k : char_class) (password : str) :
  0 <= count_class k password.
Proof. unfold count_class, len. lia. Qed.

(** The counter never gains a key beyond the four it starts with. *)
Lemma count_characters_dom (password : str) :
  dom (count_characters password)
  = {["uppercase"; "lowercase"; "digits"; "special"]}.
Proof.
  unfold count_characters.
  assert (Hinit : dom counter_init
                  = ({["uppercase"; "lowercase"; "digits"; "special"]} : gset string)).
  { unfold counter_init. rewrite !dom_insert_L, dom_empty_L. set_solver. }
  revert Hinit. generalize counter_init.
  induction password as [|c rest IH]; intros counter Hdom; [exact Hdom|].
  simpl. apply IH. rewrite count_step_classify. unfold counter_incr.
  rewrite dom_insert_L, Hdom. destruct (classify c); set_solver.
Qed.

End CountCharacters.

(** A password with a letter of each case, a digit, a space, a non-ASCII
    letter and a punctuation mark. *)
Example count_characters_mixed :
  PasswordRules.count_characters (lit "aB3 " ++ [233%N] ++ lit "!")
  = {[ "uppercase" := 1; "lowercase" := 1; "digits" := 1; "special" := 3 ]}.
Proof. vm_compute. reflexivity. Qed.

Example str_of_int_samples :
  str_of_int 0 = lit "0" /\ str_of_int 10 = lit "10"
  /\ str_of_int (-3) = lit "-3".
Proof. repeat split; reflexivity. Qed.

(** C8. For every password, [count_characters] files each character under
    exactly one of the four classes (uppercase ASCII letter, lowercase
    ASCII letter, ASCII digit, and "special" for everything else, white
    space and non-ASCII characters included): each count is the number of
    characters of its class, the four counts add up to the length of the
    password, and the empty password has four zero counts. *)
Theorem count_characters_partition :
  (forall (password : str) (k : Spec.char_class),
      PasswordRules.count_characters password !! Spec.key k
      = Some (Spec.count_class k password))
  /\ (forall password : str,
        PasswordRules.counter_get (PasswordRules.count_characters password) "uppercase"
        + PasswordRules.counter_get (PasswordRules.count_characters password) "lowercase"
        + PasswordRules.counter_get (PasswordRules.count_characters password) "digits"
        + PasswordRules.counter_get (PasswordRules.count_characters password) "special"
        = len password)
  /\ (forall c : codepoint,
        (Spec.classify c = Spec.Upper <-> (65 <= c <= 90)%N)
        /\ (Spec.classify c = Spec.Lower <-> (97 <= c <= 122)%N)
        /\ (Spec.classify c = Spec.Digit <-> (48 <= c <= 57)%N)
        /\ (Spec.classify c = Spec.Special <->
            ~ (65 <= c <= 90)%N /\ ~ (97 <= c <= 122)%N /\ ~ (48 <= c <= 57)%N))
  /\ (forall k : Spec.char_class,
        PasswordRules.count_characters [] !! Spec.key k = Some 0).
Proof.
  split; [|split; [|split]].
  - intros password k.
    pose proof (count_characters_class password k) as Hget.
    assert (Hdom : Spec.key k ∈ dom (PasswordRules.count_characters password)).
    { rewrite count_characters_dom. destruct k; set_solver. }
    apply elem_of_dom in Hdom as [v Hv].
    unfold PasswordRules.counter_get in Hget. rewrite Hv in Hget |- *.
    simpl in Hget. congruence.
  - intros password.
    pose proof (count_characters_class password Spec.Upper) as HU.
    pose proof (count_characters_class password Spec.Lower) as HL.
    pose proof (count_characters_class password Spec.Digit) as HD.
    pose proof (count_characters_class password Spec.Special) as HS.
    simpl Spec.key in HU, HL, HD, HS. rewrite HU, HL, HD, HS.
    apply count_class_total.
  - intros c. unfold Spec.classify, is_ascii_upper, is_ascii_lower, is_ascii_digit.
    destruct (in_range 65 90 c) eqn:Hu;
      [apply in_range_spec in Hu | apply not_true_iff_false in Hu;
                                   rewrite in_range_spec in Hu];
    (destruct (in_range 97 122 c) eqn:Hl;
      [apply in_range_spec in Hl | apply not_true_iff_false in Hl;
                                   rewrite in_range_spec in Hl]);
    (destruct (in_range 48 57 c) eqn:Hd;
      [apply in_range_spec in Hd | apply not_true_iff_false in Hd;
                                   rewrite in_range_spec in Hd]);
    repeat split; intros; try discriminate; try lia; try tauto.
  - intros k. destruct k; reflexivity.
Qed.

(** ** Policy validation *)

Section Validate.

Import PasswordRules Spec.

Lemma need_at_least_message (k : char_class) (n : Z) :
  need_at_least (noun k) n = class_message k n.
Proof.
  unfold need_at_least, class_message, plural.
  destruct (n =? 1); reflexivity.
Qed.

Lemma check_class_deficiency (p : PasswordRules.t) (password : str)
    (k : char_class) (errors : list str) :
  check_class (minimum p k)
              (counter_get (count_characters password) (key k))
              (noun k) errors
  = errors ++ class_deficiency class_message p password k.
Proof.
  unfold check_class, class_deficiency.
  rewrite count_characters_class.
  destruct (minimum p k) as [n|]; [|by rewrite app_nil_r].
  rewrite Z.gtb_ltb, need_at_least_message.
  destruct (count_class k password <? n); [reflexivity | by rewrite app_nil_r].
Qed.

Lemma check_length_deficiency (p : PasswordRules.t) (password : str)
    (errors : list str) (n : Z) :
  PasswordRules.length p = Some n ->
  check_length (PasswordRules.length p) password errors
  = Ok (errors ++ length_deficiency p password).
Proof.
  intros Hn. unfold check_length, length_deficiency. rewrite Hn.
  rewrite Z.gtb_ltb.
  destruct (len password <? n); [reflexivity | by rewrite app_nil_r].
Qed.

(** The list that [validate] has built when it reaches the length check. *)
Lemma validate_unfold (p : PasswordRules.t) (password : str)
    (raise_error : bool) :
  validate p password raise_error
  = (errors ← check_length (PasswordRules.length p) password
                (class_deficiency class_message p password Upper
                 ++ class_deficiency class_message p password Lower
                 ++ class_deficiency class_message p password Digit
                 ++ class_deficiency class_message p password Special);
     match raise_error, errors with
     | true, first :: _ => Raise (ValidationError first)
     | _, _ => Ok errors
     end).
Proof.
  unfold validate.
  pose proof (check_class_deficiency p password Upper) as HU.
  pose proof (check_class_deficiency p password Lower) as HL.
  pose proof (check_class_deficiency p password Digit) as HD.
  pose proof (check_class_deficiency p password Special) as HS.
  simpl minimum in *. simpl key in *. simpl noun in *.
  rewrite HU, HL, HD, HS. simpl app. rewrite <- !app_assoc. reflexivity.
Qed.

Lemma validate_deficiencies (p : PasswordRules.t) (password : str) (n : Z) :
  PasswordRules.length p = Some n ->
  validate p password false = Ok (deficiencies class_message p password).
Proof.
  intros Hn. rewrite validate_unfold.
  rewrite (check_length_deficiency _ _ _ n Hn). unfold deficiencies.
  simpl. rewrite <- !app_assoc. reflexivity.
Qed.

Lemma validate_raise_error (p : PasswordRules.t) (password : str) (n : Z) :
  PasswordRules.length p = Some n ->
  validate p password true
  = match deficiencies class_message p password with
    | [] => Ok []
    | first :: _ => Raise (ValidationError first)
    end.
Proof.
  intros Hn. rewrite validate_unfold.
  rewrite (check_length_deficiency _ _ _ n Hn). unfold deficiencies.
  simpl. rewrite <- !app_assoc.
  match goal with |- match ?l with _ => _ end = _ => destruct l end;
    reflexivity.
Qed.

Lemma validate_no_length (p : PasswordRules.t) (password : str)
    (raise_error : bool) :
  PasswordRules.length p = None ->
  validate p password raise_error
  = Raise (TypeError
      (lit "'>' not supported between instances of 'NoneType' and 'int'")).
Proof.
  intros Hn. rewrite validate_unfold. unfold check_length. rewrite Hn.
  reflexivity.
Qed.

Lemma init_ok (u l d s length : option Z) (p : PasswordRules.t) :
  __init__ u l d s length = Ok p -> p = PasswordRules.Build u l d s length.
Proof.
  unfold __init__. destruct length as [n|].
  - destruct (_ >? _); [discriminate | congruence].
  - congruence.
Qed.

End Validate.

(** ** The text of the messages *)

Section Messages.

Import PasswordRules Spec.

Lemma lit_String (a : ascii) (s : string) :
  lit (String a s) = N_of_ascii a :: lit s.
Proof. reflexivity. Qed.

(** A decimal numeral contains no space. *)
Lemma string_of_uint_no_space (u : Decimal.uint) :
  Forall (fun c => c <> 32%N) (lit (NilEmpty.string_of_uint u)).
Proof.
  induction u; simpl NilEmpty.string_of_uint;
    [constructor | rewrite lit_String; constructor; [discriminate | assumption] ..].
Qed.

Lemma str_of_int_no_space (n : Z) :
  Forall (fun c => c <> 32%N) (str_of_int n).
Proof.
  unfold str_of_int. destruct (Z.to_int n) as [u|u];
    unfold NilZero.string_of_int, NilZero.string_of_uint.
  - destruct u; try apply string_of_uint_no_space.
    repeat constructor; discriminate.
  - rewrite lit_String. constructor; [discriminate|].
    destruct u; try apply string_of_uint_no_space.
    repeat constructor; discriminate.
Qed.

(** Two texts that agree up to and after their first separator agree
    on both sides of it. *)
Lemma app_sep_inj (c : codepoint) (a b x y : str) :
  Forall (fun e => e <> c) a -> Forall (fun e => e <> c) b ->
  a ++ c :: x = b ++ c :: y -> a = b /\ x = y.
Proof.
  revert b. induction a as [|e a IH]; intros [|f b] Ha Hb Heq; simpl in Heq.
  - injection Heq as ->. split; reflexivity.
  - injection Heq as <- _. inversion Hb; congruence.
  - injection Heq as -> _. inversion Ha; congruence.
  - injection Heq as -> Heq. inversion Ha; inversion Hb; subst.
    destruct (IH b) as [-> ->]; auto.
Qed.

(** The class can be read off a class message. *)
Lemma class_message_class (j k : char_class) (n m : Z) :
  class_message j n = class_message k m -> j = k.
Proof.
  unfold class_message. intros Heq.
  apply app_inv_head in Heq.
  change (lit " ") with [32%N] in Heq. simpl app in Heq.
  apply app_sep_inj in Heq as [_ Heq]; try apply str_of_int_no_space.
  destruct j, k, (n =? 1), (m =? 1);
    first [reflexivity | discriminate Heq].
Qed.

Lemma to_int_nonnil (n : Z) :
  Z.to_int n <> Decimal.Pos Decimal.Nil /\ Z.to_int n <> Decimal.Neg Decimal.Nil.
Proof.
  destruct n as [|q|q]; simpl; split; try discriminate;
    intros [= Hq]; apply (Unsigned.to_uint_nonnil q), Hq.
Qed.

Lemma lit_inv (s : string) :
  string_of_list_ascii (map ascii_of_N (lit s)) = s.
Proof.
  unfold lit. rewrite map_map, (map_ext _ id), map_id.
  - apply string_of_list_ascii_of_string.
  - intros c. apply ascii_N_embedding.
Qed.

(** [str] of an [int] determines the [int]. *)
Lemma str_of_int_inj (n m : Z) : str_of_int n = str_of_int m -> n = m.
Proof.
  unfold str_of_int. intros Heq.
  apply (f_equal (fun t => string_of_list_ascii (map ascii_of_N t))) in Heq.
  rewrite !lit_inv in Heq.
  apply (f_equal NilZero.int_of_string) in Heq.
  destruct (to_int_nonnil n) as [Hn1 Hn2], (to_int_nonnil m) as [Hm1 Hm2].
  rewrite !NilZero.isi in Heq by assumption.
  injection Heq as Heq.
  apply (f_equal Z.of_int) in Heq. rewrite !DecimalZ.of_to in Heq. exact Heq.
Qed.

Lemma class_message_inj (j k : char_class) (n m : Z) :
  class_message j n = class_message k m -> j = k /\ n = m.
Proof.
  intros Heq. split; [eapply class_message_class, Heq|].
  unfold class_message in Heq. apply app_inv_head in Heq.
  change (lit " ") with [32%N] in Heq. simpl app in Heq.
  apply app_sep_inj in Heq as [Heq _]; try apply str_of_int_no_space.
  apply str_of_int_inj, Heq.
Qed.

Lemma class_message_not_length (k : char_class) (n m : Z) :
  class_message k n <> length_message m.
Proof. unfold class_message, length_message. discriminate. Qed.

End Messages.

(** ** Which messages [validate] reports *)

Section Deficiencies.

Import PasswordRules Spec.

Lemma elem_of_class_deficiency (message : char_class -> Z -> str)
    (p : PasswordRules.t) (password : str) (k : char_class) (msg : str) :
  msg ∈ class_deficiency message p password k
  <-> exists n, minimum p k = Some n /\ count_class k password < n
                /\ msg = message k n.
Proof.
  unfold class_deficiency. destruct (minimum p k) as [n|].
  - destruct (count_class k password <? n) eqn:Hlt.
    + apply Z.ltb_lt in Hlt. rewrite list_elem_of_singleton. split.
      * intros ->. eauto.
      * intros (m & [= <-] & _ & ->). reflexivity.
    + apply Z.ltb_ge in Hlt. split.
      * intros H. inversion H.
      * intros (m & [= <-] & Hm & _). lia.
  - split.
    + intros H. inversion H.
    + intros (m & [=] & _).
Qed.

Lemma elem_of_length_deficiency (p : PasswordRules.t) (password msg : str) :
  msg ∈ length_deficiency p password
  <-> exists n, PasswordRules.length p = Some n /\ len password < n
                /\ msg = length_message n.
Proof.
  unfold length_deficiency. destruct (PasswordRules.length p) as [n|].
  - destruct (len password <? n) eqn:Hlt.
    + apply Z.ltb_lt in Hlt. rewrite list_elem_of_singleton. split.
      * intros ->. eauto.
      * intros (m & [= <-] & _ & ->). reflexivity.
    + apply Z.ltb_ge in Hlt. split.
      * intros H. inversion H.
      * intros (m & [= <-] & Hm & _). lia.
  - split.
    + intros H. inversion H.
    + intros (m & [=] & _).
Qed.

Lemma elem_of_deficiencies (message : char_class -> Z -> str)
    (p : PasswordRules.t) (password msg : str) :
  msg ∈ deficiencies message p password
  <-> (exists k n, minimum p k = Some n /\ count_class k password < n
                   /\ msg = message k n)
      \/ (exists n, PasswordRules.length p = Some n /\ len password < n
                    /\ msg = length_message n).
Proof.
  unfold deficiencies.
  rewrite !elem_of_app, !elem_of_class_deficiency, elem_of_length_deficiency.
  split.
  - intros [H|[H|[H|[H|H]]]]; eauto.
  - intros [(k & H)|H]; [destruct k|]; eauto 6.
Qed.

Lemma class_message_reported (p : PasswordRules.t) (password : str)
    (k : char_class) (m : Z) :
  class_message k m ∈ deficiencies class_message p password
  <-> minimum p k = Some m /\ count_class k password < m.
Proof.
  rewrite elem_of_deficiencies. split.
  - intros [(j & n & Hmin & Hlt & Heq)|(n & _ & _ & Heq)].
    + apply class_message_inj in Heq as [-> ->]. auto.
    + exfalso. eapply class_message_not_length, Heq.
  - intros [Hmin Hlt]. left. eauto.
Qed.

Lemma length_message_inj (n m : Z) :
  length_message n = length_message m -> n = m.
Proof.
  unfold length_message. intros Heq. apply app_inv_head in Heq.
  change (lit " characters") with (32%N :: lit "characters") in Heq.
  apply app_sep_inj in Heq as [Heq _]; try apply str_of_int_no_space.
  apply str_of_int_inj, Heq.
Qed.

Lemma length_message_reported (p : PasswordRules.t) (password : str)
    (m : Z) :
  length_message m ∈ deficiencies class_message p password
  <-> PasswordRules.length p = Some m /\ len password < m.
Proof.
  rewrite elem_of_deficiencies. split.
  - intros [(j & n & _ & _ & Heq)|(n & Hlen & Hlt & Heq)].
    + exfalso. symmetry in Heq. eapply class_message_not_length, Heq.
    + apply length_message_inj in Heq as ->. auto.
  - intros [Hlen Hlt]. right. eauto.
Qed.

End Deficiencies.

(** [__init__] succeeds iff the length is [None] or bounds the sum of the
    class minimums. *)
Lemma init_sum_check_ok (u l d s length : option Z) :
  PasswordRules.__init__ u l d s length = Ok (PasswordRules.Build u l d s length)
  <-> length = None
      \/ exists n, length = Some n /\ Spec.sum_of_minimums u l d s <= n.
Proof.
  assert (Hsum : PasswordRules.a u + PasswordRules.a l + PasswordRules.a d
                 + PasswordRules.a s = Spec.sum_of_minimums u l d s).
  { destruct u, l, d, s; reflexivity. }
  destruct length as [n|]; unfold PasswordRules.__init__; [rewrite Hsum|].
  - destruct (Z.gtb_spec (Spec.sum_of_minimums u l d s) n); split.
    + discriminate.
    + intros [[=]|(m & [= <-] & Hm)]. lia.
    + intros _. right. exists n. split; [reflexivity | lia].
    + reflexivity.
  - split; [auto | reflexivity].
Qed.

(** C2 (amended). For every password and every policy constructed with a
    length that is not [None], [validate] returns the deficiency messages
    in the fixed order uppercase, lowercase, digit, special, length.  The
    class messages are "Need at least N uppercase character(s)", "Need at
    least N lowercase character(s)", "Need at least N digit(s)" and "Need at
    least N special character(s)", the trailing "s" omitted exactly when
    N = 1; the message of a class is in the result iff the class has a
    minimum that is strictly greater than the observed count, and "Password
    must be at least N characters" is in the result iff the password is
    shorter than the minimum length N. *)
Theorem validate_messages (u l d s : option Z) (n : Z)
    (p : PasswordRules.t) (password : str) :
  PasswordRules.__init__ u l d s (Some n) = Ok p ->
  PasswordRules.validate p password false
  = Ok (Spec.deficiencies Spec.class_message p password)
  /\ (forall (k : Spec.char_class) (m : Z),
        Spec.class_message k m ∈ Spec.deficiencies Spec.class_message p password
        <-> Spec.minimum p k = Some m /\ Spec.count_class k password < m)
  /\ (forall m : Z,
        Spec.length_message m ∈ Spec.deficiencies Spec.class_message p password
        <-> m = n /\ len password < n).
Proof.
  intros Hinit. apply init_ok in Hinit. subst p. split; [|split].
  - apply (validate_deficiencies _ _ n). reflexivity.
  - intros k m. apply class_message_reported.
  - intros m. rewrite length_message_reported. simpl. split.
    + intros [[= ->] Hlt]. auto.
    + intros [-> Hlt]. auto.
Qed.

(** The example of the specification: password "ab" under minUppercase=1,
    minDigits=1, minLength=10. *)
Lemma validate_messages_example :
  PasswordRules.__init__ (Some 1) None (Some 1) None (Some 10)
  = Ok (PasswordRules.Build (Some 1) None (Some 1) None (Some 10))
  /\ PasswordRules.validate
       (PasswordRules.Build (Some 1) None (Some 1) None (Some 10))
       (lit "ab") false
     = Ok [lit "Need at least 1 uppercase character";
           lit "Need at least 1 digit";
           lit "Password must be at least 10 characters"].
Proof.
  split; [reflexivity|].
  etransitivity.
  - exact (proj1 (validate_messages (Some 1) None (Some 1) None 10 _
                    (lit "ab") eq_refl)).
  - vm_compute. reflexivity.
Defined.

(** C2 as stated fails twice.  A digit deficiency is reported as "Need at
    least 2 digits", which is not of the form "Need at least N <class>
    character(s)"; and for a policy constructed with [length=None],
    [validate] raises [TypeError] instead of returning a list. *)
Lemma validate_uniform_form_fails :
  PasswordRules.__init__ None None (Some 2) None (Some 10)
  = Ok (PasswordRules.Build None None (Some 2) None (Some 10))
  /\ PasswordRules.validate
       (PasswordRules.Build None None (Some 2) None (Some 10)) (lit "ab") false
     = Ok [lit "Need at least 2 digits";
           lit "Password must be at least 10 characters"]
  /\ Spec.deficiencies Spec.uniform_class_message
       (PasswordRules.Build None None (Some 2) None (Some 10)) (lit "ab")
     = [lit "Need at least 2 digit characters";
        lit "Password must be at least 10 characters"]
  /\ PasswordRules.validate
       (PasswordRules.Build None None (Some 2) None (Some 10)) (lit "ab") false
     <> Ok (Spec.deficiencies Spec.uniform_class_message
              (PasswordRules.Build None None (Some 2) None (Some 10)) (lit "ab"))
  /\ PasswordRules.__init__ None None None None None
     = Ok (PasswordRules.Build None None None None None)
  /\ PasswordRules.validate
       (PasswordRules.Build None None None None None) (lit "ab") false
     = Raise (TypeError
         (lit "'>' not supported between instances of 'NoneType' and 'int'")).
Proof.
  repeat split; try (vm_compute; reflexivity).
  vm_compute. discriminate.
Qed.

(** C3 (amended). [PasswordRules.__init__] raises iff the length is not
    [None] and the sum of the class minimums that are not [None] exceeds
    it.  Only [length=None] skips the sum check, and construction then
    succeeds for every combination of class minimums; with [length=0] the
    check applies as for any other length.  In particular minUppercase=5,
    minDigits=5, minLength=8 is a construction error. *)
Theorem init_sum_check :
  (forall u l d s length : option Z,
      PasswordRules.__init__ u l d s length
      = Raise (ValueError (lit "Length must be >= sum of requirements"))
      <-> exists n, length = Some n /\ Spec.sum_of_minimums u l d s > n)
  /\ (forall u l d s length : option Z,
        PasswordRules.__init__ u l d s length
        = Ok (PasswordRules.Build u l d s length)
        <-> length = None
            \/ exists n, length = Some n /\ Spec.sum_of_minimums u l d s <= n)
  /\ (forall u l d s : option Z,
        PasswordRules.__init__ u l d s None = Ok (PasswordRules.Build u l d s None))
  /\ (forall u l d s : option Z,
        PasswordRules.__init__ u l d s (Some 0)
        = Ok (PasswordRules.Build u l d s (Some 0))
        <-> Spec.sum_of_minimums u l d s <= 0)
  /\ PasswordRules.__init__ (Some 5) None (Some 5) None (Some 8)
     = Raise (ValueError (lit "Length must be >= sum of requirements")).
Proof.
  assert (Hsum : forall u l d s,
             PasswordRules.a u + PasswordRules.a l + PasswordRules.a d
             + PasswordRules.a s = Spec.sum_of_minimums u l d s).
  { intros [?|] [?|] [?|] [?|]; reflexivity. }
  split; [|split; [|split; [|split]]].
  - intros u l d s [n|]; unfold PasswordRules.__init__; [rewrite Hsum|].
    + destruct (Z.gtb_spec (Spec.sum_of_minimums u l d s) n); split.
      * intros _. exists n. split; [reflexivity | lia].
      * reflexivity.
      * discriminate.
      * intros (m & [= <-] & Hm). lia.
    + split; [discriminate | intros (m & [=] & _)].
  - intros u l d s length. apply init_sum_check_ok.
  - reflexivity.
  - intros u l d s. unfold PasswordRules.__init__. rewrite Hsum.
    destruct (Z.gtb_spec (Spec.sum_of_minimums u l d s) 0); split;
      first [discriminate | lia | reflexivity].
  - reflexivity.
Qed.

(** C3 as stated fails at [length=0]: the sum check is not skipped, and a
    policy that asks for one uppercase character is rejected. *)
Lemma init_length_zero_checked :
  PasswordRules.__init__ (Some 1) None None None (Some 0)
  = Raise (ValueError (lit "Length must be >= sum of requirements")).
Proof. reflexivity. Qed.

(** C9. A policy without class minimums accepts every password, the empty
    one included, when its length is 0; when its length is [None], which
    [__init__] accepts, [validate] raises [TypeError] at the length check
    for every password. *)
Theorem validate_without_minimums :
  (forall (password : str) (raise_error : bool),
      PasswordRules.validate
        (PasswordRules.Build None None None None (Some 0)) password raise_error
      = Ok [])
  /\ PasswordRules.__init__ None None None None (Some 0)
     = Ok (PasswordRules.Build None None None None (Some 0))
  /\ PasswordRules.__init__ None None None None None
     = Ok (PasswordRules.Build None None None None None)
  /\ (forall (password : str) (raise_error : bool),
        PasswordRules.validate
          (PasswordRules.Build None None None None None) password raise_error
        = Raise (TypeError
            (lit "'>' not supported between instances of 'NoneType' and 'int'"))).
Proof.
  split; [|split; [|split]]; [| reflexivity | reflexivity |].
  - intros password raise_error. rewrite validate_unfold.
    unfold Spec.class_deficiency, PasswordRules.check_length. simpl.
    destruct (Z.gtb_spec 0 (len password)) as [Hlt|_].
    + unfold len in Hlt. lia.
    + destruct raise_error; reflexivity.
  - intros password raise_error. apply validate_no_length. reflexivity.
Qed.

(** C10. [PasswordRules.__init__] checks only that the sum of the class
    minimums does not exceed the length, never the sign of a minimum: a
    policy whose minimums are all zero, negative or [None] is accepted for
    every length that is not negative.  For every password, [validate]
    reports no deficiency message for a class whose minimum is at most 0,
    whether it returns the list or raises its first message. *)
Theorem nonpositive_minimum :
  (forall u l d s length : option Z,
      (exists p, PasswordRules.__init__ u l d s length = Ok p)
      <-> length = None
          \/ exists n, length = Some n /\ Spec.sum_of_minimums u l d s <= n)
  /\ (forall (u l d s : option Z) (n : Z),
        (forall v, u = Some v -> v <= 0) -> (forall v, l = Some v -> v <= 0) ->
        (forall v, d = Some v -> v <= 0) -> (forall v, s = Some v -> v <= 0) ->
        0 <= n ->
        PasswordRules.__init__ u l d s (Some n)
        = Ok (PasswordRules.Build u l d s (Some n)))
  /\ (forall (p : PasswordRules.t) (password : str) (raise_error : bool)
             (k : Spec.char_class) (n : Z),
        Spec.minimum p k = Some n -> n <= 0 ->
        (forall (errors : list str) (msg : str),
            PasswordRules.validate p password raise_error = Ok errors ->
            msg ∈ errors -> ~ Spec.is_class_message k msg)
        /\ (forall msg : str,
              PasswordRules.validate p password raise_error
              = Raise (ValidationError msg) ->
              ~ Spec.is_class_message k msg)).
Proof.
  split; [|split].
  - intros u l d s length.
    destruct init_sum_check_ok with (u := u) (l := l) (d := d) (s := s)
      (length := length) as [Hto Hfrom].
    split.
    + intros [p Hp]. apply Hto. rewrite Hp. f_equal. apply (init_ok _ _ _ _ _ _ Hp).
    + intros H. eexists. apply Hfrom, H.
  - intros u l d s n Hu Hl Hd Hs Hn.
    apply init_sum_check_ok. right. exists n. split; [reflexivity|].
    unfold Spec.sum_of_minimums.
    destruct u as [a|], l as [b|], d as [c|], s as [e|]; simpl;
      repeat match goal with
             | H : forall v, Some ?x = Some v -> _ |- _ =>
                 specialize (H x eq_refl)
             | H : forall v, None = Some v -> _ |- _ => clear H
             end; lia.
  - intros p password raise_error k n Hmin Hn.
    assert (Hnone : forall msg,
               msg ∈ Spec.deficiencies Spec.class_message p password ->
               ~ Spec.is_class_message k msg).
    { intros msg Hin [m ->]. apply class_message_reported in Hin as [Hm Hlt].
      rewrite Hmin in Hm. injection Hm as <-.
      pose proof (count_class_nonneg k password). lia. }
    destruct (PasswordRules.length p) as [len0|] eqn:Hlen.
    + destruct raise_error.
      * rewrite (validate_raise_error _ _ len0 Hlen).
        destruct (Spec.deficiencies Spec.class_message p password)
          as [|first rest] eqn:Hdef; split.
        -- intros errors msg [= <-] Hin. inversion Hin.
        -- discriminate.
        -- discriminate.
        -- intros msg [= <-]. apply Hnone. left.
      * rewrite (validate_deficiencies _ _ len0 Hlen). split.
        -- intros errors msg [= <-]. apply Hnone.
        -- discriminate.
    + rewrite (validate_no_length _ _ _ Hlen). split.
      * discriminate.
      * discriminate.
Qed.

(** ** Identifier generation *)

Section GenerateId.

Context `{R : RandomSource}.

Lemma alphabet_alphanumeric (c : codepoint) :
  c ∈ Event.alphabet -> Spec.is_alphanumeric c.
Proof.
  unfold Event.alphabet, Spec.is_alphanumeric.
  change (lit "abcdefghijklmnopqrstuvwxyzABCDEFGHIJKLMNOPQRSTUVWXYZ")
    with (lit "abcdefghijklmnopqrstuvwxyz" ++ lit "ABCDEFGHIJKLMNOPQRSTUVWXYZ").
  rewrite !elem_of_app.
  rewrite (lit_range_elem _ 97 26), (lit_range_elem _ 65 26),
          (lit_range_elem _ 48 10) by reflexivity.
  lia.
Qed.

Lemma random_choice_elem (seq : str) (s s' : rng) (c : codepoint) :
  Event.random_choice seq s = (Ok c, s') -> c ∈ seq.
Proof.
  unfold Event.random_choice. destruct seq as [|x seq]; [discriminate|].
  destruct (randbelow s _) as [i s1].
  destruct (_ !! i) as [c'|] eqn:Hi; [|discriminate].
  intros Heq. inversion Heq; subst.
  eapply list_elem_of_lookup_2, Hi.
Qed.

Lemma draw_ok (n : nat) (s s' : rng) (temp_id : str) :
  Event.draw n s = (Ok temp_id, s') ->
  length temp_id = n /\ Forall (fun c => c ∈ Event.alphabet) temp_id.
Proof.
  revert s s' temp_id.
  induction n as [|n IH]; intros s s' temp_id; cbn [Event.draw].
  - intros Heq. inversion Heq; subst. split; [reflexivity | constructor].
  - destruct (Event.random_choice Event.alphabet s) as [[c|e] s1] eqn:Hc;
      [|discriminate].
    destruct (Event.draw n s1) as [[rest|e] s2] eqn:Hrest; [|discriminate].
    intros Heq. inversion Heq; subst. destruct (IH _ _ _ Hrest) as [Hlen Hall].
    split; [simpl; congruence|].
    constructor; [eapply random_choice_elem, Hc | exact Hall].
Qed.

Lemma generate_id_body_return (events : gmap str Event.t) (s s' : rng)
    (temp_id : str) :
  Event.generate_id_body events s = Event.Return temp_id s' ->
  Event.draw Event.id_type_length s = (Ok temp_id, s')
  /\ Event.query_get events temp_id = None.
Proof.
  unfold Event.generate_id_body.
  destruct (Event.draw _ s) as [[cand|e] s1]; [|discriminate].
  destruct (Event.query_get events cand) eqn:Hq; [discriminate|].
  intros Heq. inversion Heq; subst. auto.
Qed.

(** A pass that does not leave the loop hands the generator state after
    its draw to the next pass. *)
Lemma generate_id_body_continue (events : gmap str Event.t) (s s' : rng) :
  Event.generate_id_body events s = Event.Continue s' ->
  s' = snd (Event.draw Event.id_type_length s)
  /\ exists temp_id, fst (Event.draw Event.id_type_length s) = Ok temp_id
                     /\ is_Some (Event.query_get events temp_id).
Proof.
  unfold Event.generate_id_body.
  destruct (Event.draw _ s) as [[cand|e] s1]; [|discriminate].
  destruct (Event.query_get events cand) eqn:Hq; [|discriminate].
  intros Heq. inversion Heq; subst. split; [reflexivity|]. exists cand.
  rewrite Hq. eauto.
Qed.

Lemma generate_id_return (fuel : nat) (events : gmap str Event.t)
    (s s' : rng) (temp_id : str) :
  Event.generate_id fuel events s = Some (Ok temp_id, s') ->
  exists s0, Event.generate_id_body events s0 = Event.Return temp_id s'.
Proof.
  revert s.
  induction fuel as [|fuel IH]; intros s; cbn [Event.generate_id];
    [discriminate|].
  destruct (Event.generate_id_body events s) as [cand s1|s1|e s1] eqn:Hbody.
  - intros Heq. inversion Heq; subst. eauto.
  - apply IH.
  - discriminate.
Qed.

(** While the drawn candidates are taken, the loop goes on. *)
Lemma generate_id_running (events : gmap str Event.t) (n : nat) (s : rng) :
  (forall k, (k < n)%nat ->
     exists temp_id, Event.candidate_at k s = Ok temp_id
                     /\ is_Some (Event.query_get events temp_id)) ->
  forall fuel,
    Event.generate_id (n + fuel) events s
    = Event.generate_id fuel events (Event.state_at n s).
Proof.
  revert s. induction n as [|n IH]; intros s Hmiss fuel; [reflexivity|].
  cbn [Nat.add Event.generate_id].
  destruct (Hmiss 0%nat) as (cand & Hcand & [row Hrow]); [lia|].
  unfold Event.candidate_at in Hcand. cbn [Event.state_at] in Hcand.
  unfold Event.generate_id_body.
  destruct (Event.draw Event.id_type_length s) as [r s1] eqn:Hdraw.
  cbn [fst] in Hcand. subst r. rewrite Hrow.
  rewrite IH.
  - cbn [Event.state_at]. rewrite Hdraw. reflexivity.
  - intros k Hk. specialize (Hmiss (S k)). unfold Event.candidate_at in *.
    cbn [Event.state_at] in Hmiss. rewrite Hdraw in Hmiss. apply Hmiss. lia.
Qed.

End GenerateId.

(** C4. Whenever [Event.generate_id] returns, the identifier has exactly
    the length of the [id] column, which is 10, every character of it is
    an ASCII letter or digit, and [Event.query.get] found no row for it. *)
Theorem generate_id_sound (R : RandomSource) (fuel : nat)
    (events : gmap str Event.t) (s s' : rng) (temp_id : str) :
  Event.generate_id fuel events s = Some (Ok temp_id, s') ->
  length temp_id = Event.id_type_length
  /\ Event.id_type_length = 10%nat
  /\ Forall Spec.is_alphanumeric temp_id
  /\ Event.query_get events temp_id = None.
Proof.
  intros Hret. apply generate_id_return in Hret as [s0 Hbody].
  apply generate_id_body_return in Hbody as [Hdraw Hquery].
  apply draw_ok in Hdraw as [Hlen Hall].
  repeat split; try assumption.
  eapply Forall_impl; [exact Hall|]. intros c. apply alphabet_alphanumeric.
Qed.

(** With ["abcdefghij"] taken, the second pass returns ["klmnopqrst"]. *)
Lemma generate_id_sound_example :
  Event.generate_id (H := Standins.counting_source) 2 Standins.busy_table 0%nat
  = Some (Ok (lit "klmnopqrst"), 20%nat)
  /\ length (lit "klmnopqrst") = 10%nat
  /\ Forall Spec.is_alphanumeric (lit "klmnopqrst")
  /\ Event.query_get Standins.busy_table (lit "klmnopqrst") = None.
Proof.
  split; [vm_compute; reflexivity|].
  pose proof (generate_id_sound Standins.counting_source 2 Standins.busy_table
                0%nat 20%nat (lit "klmnopqrst") eq_refl) as (Hl & _ & Ha & Hq).
  auto.
Defined.

(** C5 (amended). [Event.generate_id] has no retry ceiling and raises no
    exhaustion error: as long as every candidate drawn so far is taken, the
    loop is still running, after any number of passes; it ends at the first
    pass whose candidate is free, and returns that candidate. *)
Theorem generate_id_no_ceiling (R : RandomSource)
    (events : gmap str Event.t) (s : rng) (n : nat) :
  (forall k, (k < n)%nat ->
     exists temp_id, Event.candidate_at k s = Ok temp_id
                     /\ is_Some (Event.query_get events temp_id)) ->
  Event.generate_id n events s = None
  /\ (forall temp_id : str,
        Event.candidate_at n s = Ok temp_id ->
        Event.query_get events temp_id = None ->
        forall fuel, (n < fuel)%nat ->
          Event.generate_id fuel events s
          = Some (Ok temp_id, Event.state_at (S n) s)).
Proof.
  intros Hmiss. split.
  - rewrite <- (Nat.add_0_r n). rewrite generate_id_running by exact Hmiss.
    reflexivity.
  - intros temp_id Hcand Hfree fuel Hfuel.
    replace fuel with (n + S (fuel - S n))%nat by lia.
    rewrite generate_id_running by exact Hmiss.
    cbn [Event.generate_id Event.state_at]. unfold Event.generate_id_body.
    unfold Event.candidate_at in Hcand.
    destruct (Event.draw Event.id_type_length (Event.state_at n s))
      as [r s1] eqn:Hdraw.
    cbn [fst] in Hcand. subst r. rewrite Hfree.
    f_equal. f_equal.
    clear -Hdraw. revert s s1 Hdraw. induction n as [|n IH]; intros s s1 Hdraw.
    + cbn [Event.state_at] in *. rewrite Hdraw. reflexivity.
    + cbn [Event.state_at] in Hdraw. apply IH in Hdraw. exact Hdraw.
Qed.

(** With ["aaaaaaaaaa"] taken and a generator that draws it every time,
    the loop is still running after three passes. *)
Lemma generate_id_no_ceiling_example :
  Event.generate_id (H := Standins.constant_source) 3 Standins.taken_table tt
  = None.
Proof.
  refine (proj1 (generate_id_no_ceiling Standins.constant_source
                   Standins.taken_table tt 3 _)).
  intros k Hk. exists (lit "aaaaaaaaaa").
  destruct k as [|[|[|k]]]; [split; [reflexivity | eexists; reflexivity] .. | lia].
Defined.

(** C5 as stated fails: with ["aaaaaaaaaa"] taken and a generator that
    draws it every time, no number of passes ends the loop, and nothing is
    raised. *)
Lemma generate_id_may_loop_forever :
  ~ exists (fuel : nat) (out : result str * unit),
      Event.generate_id (H := Standins.constant_source) fuel
        Standins.taken_table tt = Some out.
Proof.
  intros (fuel & out & Hout). induction fuel as [|fuel IH].
  - discriminate Hout.
  - apply IH. exact Hout.
Qed.

(** ** Password hashing *)

(** The stand-in primitive honours the contract of the primitive. *)
Lemma truncating_bcrypt_correct : BcryptCorrect Standins.truncating_bcrypt.
Proof.
  constructor. intros password e digest. simpl. intros [= <-].
  unfold str_eqb. rewrite bool_decide_eq_true_2; reflexivity.
Qed.

Lemma password_setter_inv (B : Bcrypt) (self self' : User.t)
    (plain_password : str) (e : entropy) :
  User.password_setter self plain_password e = Ok self' ->
  exists digest,
    generate_password_hash (plain_password ++ User.salt self) e = Ok digest
    /\ self' = User.set__password self digest.
Proof.
  unfold User.password_setter.
  destruct (generate_password_hash _ e) as [digest|ex]; simpl.
  - intros [= <-]. eauto.
  - discriminate.
Qed.

(** C6. For every plaintext and every salt, once the setter of
    [User.password] has stored the hash of plaintext + salt (the salt after
    the plaintext), [check_password] on the same plaintext returns true;
    the salt is the one that was there before. *)
Theorem check_password_after_set (B : Bcrypt) (HB : BcryptCorrect B)
    (self self' : User.t) (plain_password : str) (e : entropy) :
  User.password_setter self plain_password e = Ok self' ->
  User.check_password self' plain_password = Ok true
  /\ User.salt self' = User.salt self
  /\ generate_password_hash (plain_password ++ User.salt self) e
     = Ok (User.password self').
Proof.
  intros Hset. apply password_setter_inv in Hset as (digest & Hgen & ->).
  split; [|split].
  - unfold User.check_password. simpl. apply (check_generate _ e), Hgen.
  - reflexivity.
  - exact Hgen.
Qed.

(** A user with a 32-character salt sets and then checks "correct horse". *)
Lemma check_password_after_set_example :
  User.password_setter (H := Standins.truncating_bcrypt)
    (Standins.some_user (lit "0123456789abcdef0123456789abcdef"))
    (lit "correct horse") 7%N
  = Ok (User.set__password
          (Standins.some_user (lit "0123456789abcdef0123456789abcdef"))
          (7%N :: lit "correct horse0123456789abcdef0123456789abcdef"))
  /\ User.check_password (H := Standins.truncating_bcrypt)
       (User.set__password
          (Standins.some_user (lit "0123456789abcdef0123456789abcdef"))
          (7%N :: lit "correct horse0123456789abcdef0123456789abcdef"))
       (lit "correct horse")
     = Ok true.
Proof.
  split; [reflexivity|].
  exact (proj1 (check_password_after_set Standins.truncating_bcrypt
                  truncating_bcrypt_correct
                  (Standins.some_user (lit "0123456789abcdef0123456789abcdef"))
                  _ (lit "correct horse") 7%N eq_refl)).
Defined.

(** C7 (amended). The setter of [User.password] makes no length check of
    its own: for a plaintext of any length it hands plaintext + salt,
    whole, to the hashing primitive, stores the digest when the primitive
    returns one, and raises only what the primitive raises. *)
Theorem password_setter_no_length_check (B : Bcrypt) (self : User.t)
    (plain_password : str) (e : entropy) :
  (forall digest : list N,
      generate_password_hash (plain_password ++ User.salt self) e = Ok digest ->
      User.password_setter self plain_password e
      = Ok (User.set__password self digest))
  /\ (forall ex : exn,
        generate_password_hash (plain_password ++ User.salt self) e = Raise ex ->
        User.password_setter self plain_password e = Raise ex).
Proof.
  unfold User.password_setter. split.
  - intros digest ->. reflexivity.
  - intros ex ->. reflexivity.
Qed.

(** C7 as stated fails: with a primitive that reads 72 characters, an
    80-character plaintext and a 32-character salt are hashed without any
    error, and the stored hash then verifies a different plaintext that
    shares the first 72 characters. *)
Lemma password_setter_accepts_long_input :
  (max_input_length (Bcrypt := Standins.truncating_bcrypt)
   < length (repeat 120%N 80 ++ lit "0123456789abcdef0123456789abcdef"))%nat
  /\ User.password_setter (H := Standins.truncating_bcrypt)
       (Standins.some_user (lit "0123456789abcdef0123456789abcdef"))
       (repeat 120%N 80) 7%N
     = Ok (User.set__password
             (Standins.some_user (lit "0123456789abcdef0123456789abcdef"))
             (7%N :: repeat 120%N 72))
  /\ User.check_password (H := Standins.truncating_bcrypt)
       (User.set__password
          (Standins.some_user (lit "0123456789abcdef0123456789abcdef"))
          (7%N :: repeat 120%N 72))
       (repeat 120%N 72 ++ repeat 121%N 8)
     = Ok true.
Proof.
  split; [vm_compute; lia|]. split; vm_compute; reflexivity.
Qed.

(** ** Redirect targets *)

Lemma member_http_https (x : str) :
  Urllib.member x [lit "http"; lit "https"] = true
  <-> x = lit "http" \/ x = lit "https".
Proof.
  unfold Urllib.member, str_eqb. simpl existsb.
  rewrite !orb_true_iff, !bool_decide_eq_true. intuition discriminate.
Qed.

(** * Further properties *)

(** ** The policy as a form validator *)

Section Validator.

Import PasswordRules Spec.

Lemma count_class_app (k : char_class) (a b : str) :
  count_class k (a ++ b) = count_class k a + count_class k b.
Proof.
  unfold count_class, len. rewrite List.filter_app, length_app.
  apply Nat2Z.inj_add.
Qed.

Lemma count_class_repeat (k : char_class) (c : codepoint) (n : nat) :
  count_class k (repeat c n)
  = if bool_decide (classify c = k) then Z.of_nat n else 0.
Proof.
  unfold count_class, len. induction n as [|n IH]; simpl.
  - case_bool_decide; reflexivity.
  - case_bool_decide; simpl in *; lia.
Qed.

Lemma class_deficiency_app (p : PasswordRules.t) (password more : str)
    (k : char_class) :
  sublist (class_deficiency class_message p (password ++ more) k)
          (class_deficiency class_message p password k).
Proof.
  unfold class_deficiency. destruct (minimum p k) as [n|]; [|constructor].
  rewrite count_class_app. pose proof (count_class_nonneg k more).
  destruct (Z.ltb_spec (count_class k password + count_class k more) n),
           (Z.ltb_spec (count_class k password) n);
    first [reflexivity | apply sublist_nil_l | lia].
Qed.

Lemma length_deficiency_app (p : PasswordRules.t) (password more : str) :
  sublist (length_deficiency p (password ++ more))
          (length_deficiency p password).
Proof.
  unfold length_deficiency. destruct (PasswordRules.length p) as [n|]; [|constructor].
  assert (len password <= len (password ++ more))
    by (unfold len; rewrite length_app, Nat2Z.inj_add; lia).
  destruct (Z.ltb_spec (len (password ++ more)) n),
           (Z.ltb_spec (len password) n);
    first [reflexivity | apply sublist_nil_l | lia].
Qed.

Lemma deficiencies_app (p : PasswordRules.t) (password more : str) :
  sublist (deficiencies class_message p (password ++ more))
          (deficiencies class_message p password).
Proof.
  unfold deficiencies.
  repeat apply sublist_app;
    first [apply class_deficiency_app | apply length_deficiency_app].
Qed.

Lemma deficiencies_nil (p : PasswordRules.t) (password : str) :
  deficiencies class_message p password = []
  <-> (forall k n, minimum p k = Some n -> n <= count_class k password)
      /\ (forall n, PasswordRules.length p = Some n -> n <= len password).
Proof.
  split.
  - intros Hnil. split.
    + intros k n Hmin. destruct (Z.le_gt_cases n (count_class k password)) as [|Hlt];
        [assumption|].
      assert (Hin : class_message k n ∈ deficiencies class_message p password)
        by (apply class_message_reported; split; [assumption | lia]).
      rewrite Hnil in Hin. inversion Hin.
    + intros n Hlen. destruct (Z.le_gt_cases n (len password)) as [|Hlt];
        [assumption|].
      assert (Hin : length_message n ∈ deficiencies class_message p password)
        by (apply length_message_reported; split; [assumption | lia]).
      rewrite Hnil in Hin. inversion Hin.
  - intros [Hclass Hlen].
    destruct (deficiencies class_message p password) as [|msg rest] eqn:Hdef;
      [reflexivity|].
    assert (Hin : msg ∈ deficiencies class_message p password)
      by (rewrite Hdef; left).
    apply elem_of_deficiencies in Hin
      as [(k & n & Hmin & Hlt & _)|(n & Hn & Hlt & _)].
    + specialize (Hclass k n Hmin). lia.
    + specialize (Hlen n Hn). lia.
Qed.

End Validator.

(** X1. As a form validator ([__call__]), a policy with a length accepts
    a value, returning the empty list, exactly when every configured class
    minimum is met and the value is at least as long as the minimum length;
    it never returns a non-empty list, and the message of the
    [ValidationError] it raises is the first message that [validate]
    reports. *)
Theorem call_accepts_iff (u l d s : option Z) (n : Z) (data : str) :
  (PasswordRules.__call__ (PasswordRules.Build u l d s (Some n)) data = Ok []
   <-> (forall k m,
          Spec.minimum (PasswordRules.Build u l d s (Some n)) k = Some m ->
          m <= Spec.count_class k data)
       /\ n <= len data)
  /\ (forall errors : list str,
        PasswordRules.__call__ (PasswordRules.Build u l d s (Some n)) data
        = Ok errors -> errors = [])
  /\ (forall msg : str,
        PasswordRules.__call__ (PasswordRules.Build u l d s (Some n)) data
        = Raise (ValidationError msg)
        <-> exists rest,
              PasswordRules.validate (PasswordRules.Build u l d s (Some n))
                data false = Ok (msg :: rest)).
Proof.
  set (p := PasswordRules.Build u l d s (Some n)).
  unfold PasswordRules.__call__.
  rewrite (validate_raise_error p data n eq_refl).
  rewrite (validate_deficiencies p data n eq_refl).
  pose proof (deficiencies_nil p data) as Hnil.
  destruct (Spec.deficiencies Spec.class_message p data) as [|first rest].
  - split; [|split].
    + split; [intros _|reflexivity].
      destruct Hnil as [[Hclass Hlen] _]; [reflexivity|]. split; [exact Hclass|].
      apply Hlen. reflexivity.
    + intros errors [= <-]. reflexivity.
    + intros msg. split; [discriminate | intros [rest [=]]].
  - split; [|split].
    + split; [discriminate|]. intros [Hclass Hlen].
      destruct Hnil as [_ Hnil]. exfalso.
      assert (first :: rest = []); [|discriminate].
      apply Hnil. split; [exact Hclass|]. simpl. intros m [= <-]. exact Hlen.
    + discriminate.
    + intros msg. split.
      * intros [= <-]. eauto.
      * intros [rest' [= -> _]]. reflexivity.
Qed.

(** X2. Appending characters to a password never adds a deficiency: the
    messages reported for the longer password are a sublist, in the same
    order, of those reported for the shorter one. *)
Theorem validate_append_monotone (u l d s : option Z) (n : Z)
    (password more : str) :
  exists errors errors' : list str,
    PasswordRules.validate (PasswordRules.Build u l d s (Some n)) password false
    = Ok errors
    /\ PasswordRules.validate (PasswordRules.Build u l d s (Some n))
         (password ++ more) false
       = Ok errors'
    /\ sublist errors' errors.
Proof.
  eexists _, _. split; [|split].
  - apply (validate_deficiencies _ _ n). reflexivity.
  - apply (validate_deficiencies _ _ n). reflexivity.
  - apply deficiencies_app.
Qed.

(** The password that is used to show that a policy can be met: the class
    minimums in uppercase, lowercase and digits, and special characters up
    to the length. *)
Lemma sample_password_counts (cu cl cd cs : nat) :
  let password :=
    repeat 65%N cu ++ repeat 97%N cl ++ repeat 48%N cd ++ repeat 33%N cs in
  Spec.count_class Spec.Upper password = Z.of_nat cu
  /\ Spec.count_class Spec.Lower password = Z.of_nat cl
  /\ Spec.count_class Spec.Digit password = Z.of_nat cd
  /\ Spec.count_class Spec.Special password = Z.of_nat cs
  /\ len password = Z.of_nat (cu + cl + cd + cs).
Proof.
  intros password. subst password.
  rewrite !count_class_app, !count_class_repeat. unfold len.
  rewrite !length_app, !repeat_length.
  repeat split; try (vm_compute bool_decide; cbv iota; lia).
Qed.

(** X3. The check of [__init__] is what makes the minimum length
    sufficient: for a policy that [__init__] accepts and whose class
    minimums are not negative, some password of exactly the minimum length
    passes [validate]. *)
Theorem accepted_policy_met_at_length (u l d s : option Z) (n : Z)
    (p : PasswordRules.t) :
  PasswordRules.__init__ u l d s (Some n) = Ok p ->
  (forall v, u = Some v -> 0 <= v) -> (forall v, l = Some v -> 0 <= v) ->
  (forall v, d = Some v -> 0 <= v) -> (forall v, s = Some v -> 0 <= v) ->
  exists password : str,
    len password = n /\ PasswordRules.validate p password false = Ok [].
Proof.
  intros Hinit Hu Hl Hd Hs.
  pose proof (init_ok _ _ _ _ _ _ Hinit) as ->.
  apply init_sum_check_ok in Hinit as [[=]|(m & [= <-] & Hsum)].
  unfold Spec.sum_of_minimums in Hsum.
  set (cu := default 0 u) in *. set (cl := default 0 l) in *.
  set (cd := default 0 d) in *. set (cs := default 0 s) in *.
  assert (0 <= cu) by (subst cu; destruct u; simpl; [apply Hu; reflexivity | lia]).
  assert (0 <= cl) by (subst cl; destruct l; simpl; [apply Hl; reflexivity | lia]).
  assert (0 <= cd) by (subst cd; destruct d; simpl; [apply Hd; reflexivity | lia]).
  assert (0 <= cs) by (subst cs; destruct s; simpl; [apply Hs; reflexivity | lia]).
  destruct (sample_password_counts (Z.to_nat cu) (Z.to_nat cl) (Z.to_nat cd)
              (Z.to_nat (n - cu - cl - cd)))
    as (HU & HL & HD & HS & Hlen).
  eexists. split; [rewrite Hlen; lia|].
  rewrite (validate_deficiencies (PasswordRules.Build u l d s (Some n)) _ n eq_refl).
  f_equal. apply deficiencies_nil. split.
  - intros k v Hmin.
    destruct k; simpl in Hmin; subst; simpl in *;
      first [rewrite HU | rewrite HL | rewrite HD | rewrite HS]; lia.
  - simpl. intros v [= <-]. rewrite Hlen. lia.
Qed.

(** minUppercase=1, minDigits=1, minLength=10: the password "A0!!!!!!!!"
    has exactly ten characters and passes. *)
Lemma accepted_policy_met_at_length_example :
  exists password : str,
    len password = 10
    /\ PasswordRules.validate
         (PasswordRules.Build (Some 1) None (Some 1) None (Some 10))
         password false = Ok [].
Proof.
  apply (accepted_policy_met_at_length (Some 1) None (Some 1) None 10 _ eq_refl);
    intros v [= <-]; lia.
Defined.

(** X4. Conversely, for a policy that [__init__] rejects, no password of
    at most the minimum length passes [validate]: the sum of the class
    minimums is above the length, so a class is short or the password is. *)
Theorem rejected_policy_unmet_at_length (u l d s : option Z) (n : Z)
    (password : str) :
  PasswordRules.__init__ u l d s (Some n)
  = Raise (ValueError (lit "Length must be >= sum of requirements")) ->
  len password <= n ->
  exists (first : str) (rest : list str),
    PasswordRules.validate (PasswordRules.Build u l d s (Some n)) password false
    = Ok (first :: rest).
Proof.
  intros Hinit Hlen.
  set (p := PasswordRules.Build u l d s (Some n)).
  rewrite (validate_deficiencies p _ n eq_refl).
  destruct (Spec.deficiencies Spec.class_message p password)
    as [|first rest] eqn:Hdef; [exfalso | eauto].
  apply deficiencies_nil in Hdef as [Hclass _].
  assert (Hsum : Spec.sum_of_minimums u l d s > n).
  { destruct (Z.le_gt_cases (Spec.sum_of_minimums u l d s) n) as [Hle|Hgt];
      [|lia].
    assert (Hok : PasswordRules.__init__ u l d s (Some n)
                  = Ok (PasswordRules.Build u l d s (Some n)))
      by (apply init_sum_check_ok; eauto).
    rewrite Hok in Hinit. discriminate. }
  pose proof (count_class_total password) as Htotal.
  pose proof (count_class_nonneg Spec.Upper password).
  pose proof (count_class_nonneg Spec.Lower password).
  pose proof (count_class_nonneg Spec.Digit password).
  pose proof (count_class_nonneg Spec.Special password).
  pose proof (Hclass Spec.Upper) as HU. pose proof (Hclass Spec.Lower) as HL.
  pose proof (Hclass Spec.Digit) as HD. pose proof (Hclass Spec.Special) as HS.
  unfold Spec.sum_of_minimums in Hsum. simpl in HU, HL, HD, HS.
  destruct u as [cu|], l as [cl|], d as [cd|], s as [cs|]; simpl in Hsum;
    repeat match goal with
           | H : forall n, Some ?x = Some n -> _ |- _ => specialize (H x eq_refl)
           | H : forall n, None = Some n -> _ |- _ => clear H
           end; lia.
Qed.

(** minUppercase=5, minDigits=5, minLength=8: "ABCDE012" is reported. *)
Lemma rejected_policy_unmet_at_length_example :
  exists (first : str) (rest : list str),
    PasswordRules.validate
      (PasswordRules.Build (Some 5) None (Some 5) None (Some 8))
      (lit "ABCDE012") false
    = Ok (first :: rest).
Proof.
  apply (rejected_policy_unmet_at_length (Some 5) None (Some 5) None 8
           (lit "ABCDE012") eq_refl).
  vm_compute. discriminate.
Defined.

(** ** Counting is additive *)

Lemma count_class_Permutation (k : Spec.char_class) (a b : str) :
  a ≡ₚ b -> Spec.count_class k a = Spec.count_class k b.
Proof.
  unfold Spec.count_class, len.
  induction 1 as [|c a b _ IH|c c' a|a b c _ IH1 _ IH2]; simpl;
    repeat case_bool_decide; simpl; lia.
Qed.

Lemma count_characters_lookup (password : str) (i : string) :
  PasswordRules.count_characters password !! i
  = if bool_decide (i = "uppercase") then Some (Spec.count_class Spec.Upper password)
    else if bool_decide (i = "lowercase") then Some (Spec.count_class Spec.Lower password)
    else if bool_decide (i = "digits") then Some (Spec.count_class Spec.Digit password)
    else if bool_decide (i = "special") then Some (Spec.count_class Spec.Special password)
    else None.
Proof.
  assert (Hkey : forall k,
             PasswordRules.count_characters password !! Spec.key k
             = Some (Spec.count_class k password)).
  { intros k. pose proof (count_characters_class password k) as Hget.
    assert (Hdom : Spec.key k ∈ dom (PasswordRules.count_characters password))
      by (rewrite count_characters_dom; destruct k; set_solver).
    apply elem_of_dom in Hdom as [v Hv].
    unfold PasswordRules.counter_get in Hget. rewrite Hv in Hget |- *.
    simpl in Hget. congruence. }
  repeat case_bool_decide; subst;
    [apply (Hkey Spec.Upper) | apply (Hkey Spec.Lower)
     | apply (Hkey Spec.Digit) | apply (Hkey Spec.Special) |].
  apply not_elem_of_dom. rewrite count_characters_dom.
  rewrite !elem_of_union, !elem_of_singleton. tauto.
Qed.

(** X5. [count_characters] counts each character on its own: the counts
    of a concatenation are the sums of the counts of its parts, and two
    passwords with the same characters in a different order have the same
    [Counter]. *)
Theorem count_characters_additive :
  (forall (a b : str) (key : string),
      PasswordRules.counter_get (PasswordRules.count_characters (a ++ b)) key
      = PasswordRules.counter_get (PasswordRules.count_characters a) key
        + PasswordRules.counter_get (PasswordRules.count_characters b) key)
  /\ (forall a b : str,
        a ≡ₚ b ->
        PasswordRules.count_characters a = PasswordRules.count_characters b).
Proof.
  split.
  - intros a b key. unfold PasswordRules.counter_get.
    rewrite !count_characters_lookup.
    repeat case_bool_decide; simpl; rewrite ?count_class_app; lia.
  - intros a b Hperm. apply map_eq. intros i.
    rewrite !count_characters_lookup.
    repeat case_bool_decide; try reflexivity; f_equal;
      apply count_class_Permutation, Hperm.
Qed.

(** ** The identifier that [generate_id] returns *)

Section FirstFree.

Context `{R : RandomSource}.

Lemma state_at_S (k : nat) (s : rng) :
  Event.state_at (S k) s
  = snd (Event.draw Event.id_type_length (Event.state_at k s)).
Proof.
  revert s. induction k as [|k IH]; intros s; [reflexivity|].
  cbn [Event.state_at] in *. apply IH.
Qed.

Context {HR : RandomSourceCorrect R}.

Lemma random_choice_ok (seq : str) (s : rng) :
  seq <> [] -> exists c s', Event.random_choice seq s = (Ok c, s').
Proof.
  intros Hne. unfold Event.random_choice.
  destruct seq as [|x seq]; [contradiction|].
  pose proof (randbelow_lt s (length (x :: seq))) as Hlt.
  destruct (randbelow s (length (x :: seq))) as [i s1].
  simpl fst in Hlt. cbv beta iota.
  destruct (_ !! i) as [c|] eqn:Hi; [eauto|].
  apply lookup_ge_None in Hi. exfalso.
  apply (Nat.lt_irrefl i). eapply Nat.lt_le_trans; [apply Hlt|exact Hi].
  simpl. lia.
Qed.

Lemma draw_never_raises (n : nat) (s : rng) :
  exists temp_id s', Event.draw n s = (Ok temp_id, s').
Proof.
  revert s. induction n as [|n IH]; intros s; cbn [Event.draw]; [eauto|].
  destruct (random_choice_ok Event.alphabet s) as (c & s1 & ->);
    [discriminate|].
  destruct (IH s1) as (rest & s2 & ->). eauto.
Qed.

End FirstFree.

(** X6. [Event.generate_id] returns the first free candidate: when it
    returns, the identifier is the one drawn in some pass, it has no row in
    the table, and the candidate of every earlier pass has one. *)
Theorem generate_id_returns_first_free (R : RandomSource) (fuel : nat)
    (events : gmap str Event.t) (s s' : rng) (temp_id : str) :
  Event.generate_id fuel events s = Some (Ok temp_id, s') ->
  exists k : nat,
    (k < fuel)%nat
    /\ Event.candidate_at k s = Ok temp_id
    /\ Event.query_get events temp_id = None
    /\ s' = Event.state_at (S k) s
    /\ forall j, (j < k)%nat ->
         exists taken, Event.candidate_at j s = Ok taken
                       /\ is_Some (Event.query_get events taken).
Proof.
  revert s. induction fuel as [|fuel IH]; intros s; cbn [Event.generate_id];
    [discriminate|].
  destruct (Event.generate_id_body events s) as [cand s1|s1|e s1] eqn:Hbody.
  - intros Heq. inversion Heq; subst.
    apply generate_id_body_return in Hbody as [Hdraw Hfree].
    exists 0%nat. unfold Event.candidate_at. cbn [Event.state_at].
    rewrite Hdraw.
    split; [lia|]. split; [reflexivity|]. split; [assumption|].
    split; [reflexivity|]. intros j Hj. lia.
  - intros Hrec. apply generate_id_body_continue in Hbody
      as [Hs1 (taken & Htaken & Hrow)].
    subst s1.
    apply IH in Hrec as (k & Hk & Hcand & Hfree & Hs' & Hbefore).
    exists (S k).
    split; [lia|]. split; [exact Hcand|]. split; [assumption|].
    split; [exact Hs'|]. intros [|j] Hj.
    + exists taken. split; assumption.
    + apply Hbefore. lia.
  - discriminate.
Qed.

(** With "abcdefghij" taken, the identifier returned is the candidate of
    the second pass. *)
Lemma generate_id_returns_first_free_example :
  exists k : nat,
    (k < 2)%nat
    /\ Event.candidate_at (H := Standins.counting_source) k 0%nat
       = Ok (lit "klmnopqrst").
Proof.
  destruct (generate_id_returns_first_free Standins.counting_source 2
              Standins.busy_table 0%nat 20%nat (lit "klmnopqrst") eq_refl)
    as (k & Hk & Hcand & _).
  exists k. split; assumption.
Defined.

Lemma counting_source_correct : RandomSourceCorrect Standins.counting_source.
Proof.
  constructor. intros s n Hn. simpl. apply Nat.mod_upper_bound. lia.
Qed.

(** With a database that always answers from the table, the loop is the
    one modelled with the table alone. *)
Lemma generate_id_with_table (R : RandomSource) (fuel : nat)
    (events : gmap str Event.t) (s : rng) :
  Event.generate_id_with fuel (Event.query_of_table events) s
  = Event.generate_id fuel events s.
Proof.
  revert s. induction fuel as [|fuel IH]; intros s; [reflexivity|].
  cbn [Event.generate_id_with Event.generate_id].
  unfold Event.generate_id_body_with, Event.generate_id_body,
    Event.query_of_table.
  destruct (Event.draw Event.id_type_length s) as [[cand|e] s1];
    [|reflexivity].
  destruct (Event.query_get events cand); [apply IH | reflexivity].
Qed.

(** X7. [Event.generate_id] raises only what [Event.query.get] raises.
    With a random source that keeps its indices below the bound, the
    drawing of the candidates raises nothing; so when the loop raises, the
    exception is the one that the query raised on the candidate of that
    pass, and the query had answered with a row for the candidate of every
    earlier pass.  When the query answers every call, the loop raises
    nothing: however many passes it makes, it has either returned an
    identifier or is still looping.  The loop over a table is the case of
    a query that always answers. *)
Theorem generate_id_raises_only_from_query (R : RandomSource)
    (HR : RandomSourceCorrect R) (fuel : nat) (get : Event.query) (s : rng) :
  (forall (e : exn) (s' : rng),
      Event.generate_id_with fuel get s = Some (Raise e, s') ->
      exists (k : nat) (temp_id : str),
        (k < fuel)%nat
        /\ Event.candidate_at k s = Ok temp_id
        /\ get temp_id = Raise e
        /\ forall j, (j < k)%nat ->
             exists taken row, Event.candidate_at j s = Ok taken
                               /\ get taken = Ok (Some row))
  /\ ((forall temp_id, exists answer, get temp_id = Ok answer) ->
      Event.generate_id_with fuel get s = None
      \/ exists temp_id s',
           Event.generate_id_with fuel get s = Some (Ok temp_id, s'))
  /\ (forall events : gmap str Event.t,
        Event.generate_id_with fuel (Event.query_of_table events) s
        = Event.generate_id fuel events s).
Proof.
  split; [|split; [|intros events; apply generate_id_with_table]].
  - revert s. induction fuel as [|fuel IH]; intros s e s';
      cbn [Event.generate_id_with]; [discriminate|].
    unfold Event.generate_id_body_with.
    destruct (draw_never_raises Event.id_type_length s)
      as (cand & s1 & Hdraw).
    rewrite Hdraw. destruct (get cand) as [[row|]|e0] eqn:Hget.
    + intros Hrec.
      apply IH in Hrec as (k & temp_id & Hk & Hcand & Hraise & Hbefore).
      exists (S k), temp_id. split; [lia|].
      unfold Event.candidate_at in *. cbn [Event.state_at].
      rewrite Hdraw. cbn [snd]. split; [exact Hcand|].
      split; [exact Hraise|]. intros [|j] Hj.
      * exists cand, row. cbn [Event.state_at]. rewrite Hdraw.
        split; [reflexivity | exact Hget].
      * cbn [Event.state_at]. rewrite Hdraw. cbn [snd]. apply Hbefore. lia.
    + discriminate.
    + intros Heq. inversion Heq; subst. exists 0%nat, cand.
      split; [lia|]. unfold Event.candidate_at. cbn [Event.state_at].
      rewrite Hdraw. split; [reflexivity|]. split; [exact Hget|].
      intros j Hj. lia.
  - intros Hanswers. revert s.
    induction fuel as [|fuel IH]; intros s; cbn [Event.generate_id_with];
      [left; reflexivity|].
    unfold Event.generate_id_body_with.
    destruct (draw_never_raises Event.id_type_length s)
      as (cand & s1 & Hdraw).
    rewrite Hdraw. destruct (Hanswers cand) as [answer Hget]. rewrite Hget.
    destruct answer; [apply IH | right; eauto].
Qed.

(** The first candidate, "abcdefghij", has a row; the query fails on the
    second, and the loop raises what the query raised. *)
Lemma generate_id_raises_only_from_query_example :
  Event.generate_id_with (H := Standins.counting_source) 3
    Standins.failing_query 0%nat
  = Some (Raise (ValueError (lit "connection lost")), 20%nat)
  /\ exists (k : nat) (temp_id : str),
       (k < 3)%nat
       /\ Event.candidate_at (H := Standins.counting_source) k 0%nat
          = Ok temp_id
       /\ Standins.failing_query temp_id
          = Raise (ValueError (lit "connection lost")).
Proof.
  split; [reflexivity|].
  destruct (generate_id_raises_only_from_query Standins.counting_source
              counting_source_correct 3 Standins.failing_query 0%nat)
    as [Hraise _].
  destruct (Hraise (ValueError (lit "connection lost")) 20%nat eq_refl)
    as (k & temp_id & Hk & Hcand & Hget & _).
  exists k, temp_id. split; [exact Hk|]. split; [exact Hcand | exact Hget].
Defined.

(** ** Facts about the string operations *)

Section StrFacts.

Import UrlShape.

Lemma contains_true (s : list N) (c : N) :
  contains s c = true <-> c ∈ s.
Proof.
  unfold contains. rewrite existsb_exists, list_elem_of_In. split.
  - intros (x & Hx & Heq). apply N.eqb_eq in Heq. subst x. exact Hx.
  - intros Hc. exists c. split; [assumption | apply N.eqb_refl].
Qed.

Lemma contains_false (s : list N) (c : N) :
  contains s c = false <-> c ∉ s.
Proof.
  rewrite <- contains_true. destruct (contains s c); split; congruence.
Qed.

Lemma remove_unsafe_filter (s : list N) :
  remove_unsafe s = List.filter (fun c => negb (is_unsafe c)) s.
Proof.
  unfold remove_unsafe, Urllib._UNSAFE_URL_BYTES_TO_REMOVE, remove, is_unsafe.
  cbn [fold_left]. induction s as [|x s IH]; [reflexivity|].
  simpl in *.
  destruct (N.eqb x 9); simpl; [exact IH|].
  destruct (N.eqb x 13); simpl; [exact IH|].
  destruct (N.eqb x 10); simpl; [exact IH | f_equal; exact IH].
Qed.

Lemma remove_unsafe_app (a b : list N) :
  remove_unsafe (a ++ b) = remove_unsafe a ++ remove_unsafe b.
Proof. rewrite !remove_unsafe_filter. apply List.filter_app. Qed.

Lemma remove_unsafe_id (s : list N) :
  Forall (fun c => is_unsafe c = false) s -> remove_unsafe s = s.
Proof.
  rewrite remove_unsafe_filter. induction 1 as [|x s Hx _ IH]; [reflexivity|].
  cbn [List.filter]. rewrite Hx. cbn [negb]. congruence.
Qed.

Lemma remove_unsafe_safe (s : list N) :
  Forall (fun c => is_unsafe c = false) (remove_unsafe s).
Proof.
  rewrite remove_unsafe_filter. apply Forall_forall. intros c Hc.
  apply list_elem_of_In, filter_In in Hc as [_ Hc].
  destruct (is_unsafe c); [discriminate | reflexivity].
Qed.

Lemma remove_unsafe_cons_safe (c : N) (s : list N) :
  is_unsafe c = false -> remove_unsafe (c :: s) = c :: remove_unsafe s.
Proof.
  intros Hc. rewrite !remove_unsafe_filter. cbn [List.filter]. rewrite Hc.
  reflexivity.
Qed.

Lemma take_while_lstrip (f : N -> bool) (s : list N) :
  take_while f s ++ lstrip s f = s.
Proof.
  induction s as [|x s IH]; [reflexivity|]. cbn [take_while lstrip].
  destruct (f x); [cbn [app]; congruence | reflexivity].
Qed.

Lemma take_while_all (f : N -> bool) (s : list N) :
  Forall (fun c => f c = true) (take_while f s).
Proof.
  induction s as [|x s IH]; [constructor|]. cbn [take_while].
  destruct (f x) eqn:Hx; constructor; assumption.
Qed.

Lemma lstrip_head (f : N -> bool) (s : list N) :
  match lstrip s f with
  | [] => True
  | c :: _ => f c = false
  end.
Proof.
  induction s as [|x s IH]; [exact I|]. cbn [lstrip].
  destruct (f x) eqn:Hx; assumption.
Qed.

Lemma take_while_app (f : N -> bool) (p t : list N) :
  Forall (fun c => f c = true) p ->
  match t with [] => True | c :: _ => f c = false end ->
  take_while f (p ++ t) = p /\ lstrip (p ++ t) f = t.
Proof.
  intros Hp Ht. induction Hp as [|x p Hx _ IH]; cbn [app].
  - destruct t as [|c t]; [split; reflexivity|].
    cbn [take_while lstrip]. rewrite Ht. split; reflexivity.
  - cbn [take_while lstrip]. rewrite Hx. destruct IH as [-> ->].
    split; reflexivity.
Qed.

Lemma find_aux_notin (s : list N) (c : N) (k : Z) :
  c ∉ s -> find_aux s c k = -1.
Proof.
  revert k. induction s as [|x s IH]; intros k Hc; [reflexivity|].
  cbn [find_aux]. destruct (N.eqb_spec x c) as [->|Hne].
  - exfalso. apply Hc. left.
  - apply IH. intros Hin. apply Hc. right. assumption.
Qed.

Lemma find_aux_app (p q : list N) (c : N) (k : Z) :
  c ∉ p -> find_aux (p ++ c :: q) c k = k + len p.
Proof.
  revert k. induction p as [|x p IH]; intros k Hc; cbn [app find_aux].
  - rewrite N.eqb_refl. unfold len. simpl. lia.
  - destruct (N.eqb_spec x c) as [->|Hne].
    + exfalso. apply Hc. left.
    + rewrite IH by (intros Hin; apply Hc; right; assumption).
      unfold len. simpl. lia.
Qed.

Lemma find_aux_skip (p q : list N) (c : N) (k : Z) :
  c ∉ p ->
  find_aux (p ++ q) c k = -1 \/ k + len p <= find_aux (p ++ q) c k.
Proof.
  revert k. induction p as [|x p IH]; intros k Hc; cbn [app].
  - unfold len. simpl. clear Hc. revert k.
    induction q as [|y q IHq]; intros k; cbn [find_aux]; [left; reflexivity|].
    destruct (N.eqb y c); [right; lia|].
    destruct (IHq (k + 1)) as [->|Hle]; [left; reflexivity | right; lia].
  - cbn [find_aux]. destruct (N.eqb_spec x c) as [->|Hne].
    + exfalso. apply Hc. left.
    + destruct (IH (k + 1)) as [->|Hle];
        [intros Hin; apply Hc; right; assumption | left; reflexivity |].
      right. unfold len in *. simpl. lia.
Qed.

Lemma slice_bound_nonneg (n : nat) (i : Z) :
  0 <= i -> slice_bound n i = Z.to_nat i.
Proof.
  intros Hi. unfold slice_bound. destruct (Z.ltb_spec i 0); [lia | reflexivity].
Qed.

Lemma slice_to_app (a b : list N) : slice_to (a ++ b) (len a) = a.
Proof.
  unfold slice_to, len. rewrite slice_bound_nonneg by lia.
  rewrite Nat2Z.id. apply take_app_length.
Qed.

Lemma slice_from_app (a b : list N) : slice_from (a ++ b) (len a) = b.
Proof.
  unfold slice_from, len. rewrite slice_bound_nonneg by lia.
  rewrite Nat2Z.id. apply drop_app_length.
Qed.

Lemma slice_from_app_succ (a b : list N) (c : N) :
  slice_from (a ++ c :: b) (len a + 1) = b.
Proof.
  replace (a ++ c :: b) with ((a ++ [c]) ++ b) by (rewrite <- app_assoc; reflexivity).
  replace (len a + 1) with (len (a ++ [c]))
    by (unfold len; rewrite length_app, Nat2Z.inj_add; reflexivity).
  apply slice_from_app.
Qed.

End StrFacts.

(** ** The network location *)

Section Authority.

Import Urllib UrlShape.

Lemma is_delimiter_cases (c : N) :
  is_delimiter c = true <-> c = 47%N \/ c = 63%N \/ c = 35%N.
Proof.
  unfold is_delimiter. change (chr "/") with 47%N.
  change (chr "?") with 63%N. change (chr "#") with 35%N.
  rewrite !orb_true_iff, !N.eqb_eq. tauto.
Qed.

Lemma not_delimiter_notin (c : N) (p : list N) :
  is_delimiter c = true ->
  Forall (fun x => negb (is_delimiter x) = true) p -> c ∉ p.
Proof.
  intros Hc Hp Hin. rewrite Forall_forall in Hp. specialize (Hp c Hin).
  rewrite Hc in Hp. discriminate.
Qed.

(** The earliest of three searches, each of which either fails or finds
    something at or after [m], one of them at [m] unless the text ends
    there. *)
Lemma earliest_delimiter (total f1 f2 f3 m : Z) :
  0 <= m <= total ->
  f1 = -1 \/ m <= f1 -> f2 = -1 \/ m <= f2 -> f3 = -1 \/ m <= f3 ->
  total = m \/ f1 = m \/ f2 = m \/ f3 = m ->
  (let delim := total in
   let delim := if f1 >=? 0 then Z.min delim f1 else delim in
   let delim := if f2 >=? 0 then Z.min delim f2 else delim in
   if f3 >=? 0 then Z.min delim f3 else delim) = m.
Proof.
  intros Hm H1 H2 H3 Hfound. cbv zeta.
  destruct (Z.geb_spec f1 0), (Z.geb_spec f2 0), (Z.geb_spec f3 0); lia.
Qed.

(** [_splitnetloc] cuts at the first delimiter. *)
Lemma splitnetloc_span (a b : N) (rest : list N) :
  _splitnetloc (a :: b :: rest) 2
  = (take_while (fun c => negb (is_delimiter c)) rest,
     lstrip rest (fun c => negb (is_delimiter c))).
Proof.
  set (nd := fun c => negb (is_delimiter c)).
  pose proof (take_while_lstrip nd rest) as Hrest.
  pose proof (take_while_all nd rest) as Hp.
  pose proof (lstrip_head nd rest) as Ht.
  set (p := take_while nd rest) in *. set (t := lstrip rest nd) in *.
  clearbody p t. subst rest.
  unfold _splitnetloc. change (lit "/?#") with [47%N; 63%N; 35%N].
  unfold find_start.
  rewrite slice_bound_nonneg by lia. change (Z.to_nat 2) with 2%nat.
  cbn [drop fold_left]. change (Z.of_nat 2) with 2.
  assert (H47 : (47%N : N) ∉ p)
    by (apply not_delimiter_notin; [reflexivity | exact Hp]).
  assert (H63 : (63%N : N) ∉ p)
    by (apply not_delimiter_notin; [reflexivity | exact Hp]).
  assert (H35 : (35%N : N) ∉ p)
    by (apply not_delimiter_notin; [reflexivity | exact Hp]).
  assert (Hdelim :
    (let delim := len (a :: b :: p ++ t) in
     let delim := if find_aux (p ++ t) 47%N 2 >=? 0
                  then Z.min delim (find_aux (p ++ t) 47%N 2) else delim in
     let delim := if find_aux (p ++ t) 63%N 2 >=? 0
                  then Z.min delim (find_aux (p ++ t) 63%N 2) else delim in
     if find_aux (p ++ t) 35%N 2 >=? 0
     then Z.min delim (find_aux (p ++ t) 35%N 2) else delim)
    = 2 + len p).
  { assert (Hlen : len (a :: b :: p ++ t) = 2 + len p + len t)
      by (unfold len; simpl; rewrite length_app; lia).
    assert (Hlp : 0 <= len p) by (unfold len; lia).
    assert (Hlt : 0 <= len t) by (unfold len; lia).
    apply earliest_delimiter; try (apply find_aux_skip; assumption); [lia|].
    destruct t as [|d t'].
    - left. rewrite Hlen. unfold len. simpl. lia.
    - right. cbn [lstrip] in Ht. unfold nd in Ht.
      assert (Hd : is_delimiter d = true)
        by (destruct (is_delimiter d); [reflexivity | discriminate]).
      apply is_delimiter_cases in Hd.
      destruct Hd as [ -> | [ -> | -> ] ];
        [left | right; left | right; right]; apply find_aux_app; assumption. }
  match goal with
  | |- (slice _ _ ?d, _) = _ =>
      replace d with (2 + len p) by (symmetry; exact Hdelim)
  end.
  unfold slice, slice_from.
  rewrite !slice_bound_nonneg by (unfold len; lia).
  change (Z.to_nat 2) with 2%nat.
  replace (Z.to_nat (2 + len p)) with (2 + length p)%nat by (unfold len; lia).
  replace (2 + length p - 2)%nat with (length p) by lia.
  cbn [drop Nat.add]. f_equal.
  - apply take_app_length.
  - apply drop_app_length.
Qed.

End Authority.

(** ** The scheme and the network location that [urlsplit] finds *)

Section SchemeAndAuthority.

Import Urllib UrlShape.

Lemma find_aux_found (s : list N) (c : N) (k i : Z) :
  find_aux s c k = i -> i <> (-1) -> 0 <= k ->
  exists p q, s = p ++ c :: q /\ (c ∉ p) /\ i = k + len p.
Proof.
  revert k. induction s as [|x s IH]; intros k Hi Hne Hk; cbn [find_aux] in Hi.
  - congruence.
  - destruct (N.eqb_spec x c) as [->|Hxc].
    + exists [], s. repeat split; [inversion 1 | unfold len; simpl; lia].
    + destruct (IH (k + 1) Hi Hne) as (p & q & -> & Hp & ->); [lia|].
      exists (x :: p), q. repeat split.
      * intros Hin. inversion Hin; subst; [congruence | contradiction].
      * unfold len. simpl. lia.
Qed.

Lemma starts_with_slashes (url : list N) :
  str_eqb (slice_to url 2) (lit "//") = true
  <-> exists rest, url = 47%N :: 47%N :: rest.
Proof.
  unfold str_eqb, slice_to. rewrite bool_decide_eq_true.
  rewrite slice_bound_nonneg by lia. change (Z.to_nat 2) with 2%nat.
  change (lit "//") with [47%N; 47%N]. split.
  - destruct url as [|a [|b rest]]; cbn [take]; intros [=]. subst. eauto.
  - intros [rest ->]. reflexivity.
Qed.

Lemma split_authority_slashes (rest : list N) :
  split_authority (47%N :: 47%N :: rest)
  = (take_while (fun c => negb (is_delimiter c)) rest,
     lstrip rest (fun c => negb (is_delimiter c))).
Proof.
  unfold split_authority.
  replace (str_eqb (slice_to (47%N :: 47%N :: rest) 2) (lit "//")) with true
    by (symmetry; apply starts_with_slashes; eauto).
  apply splitnetloc_span.
Qed.

Lemma split_authority_other (url : list N) :
  (forall rest, url <> 47%N :: 47%N :: rest) ->
  split_authority url = ([], url).
Proof.
  intros Hno. unfold split_authority.
  destruct (str_eqb (slice_to url 2) (lit "//")) eqn:Heq; [|reflexivity].
  apply starts_with_slashes in Heq as [rest ->]. exfalso. eapply Hno. reflexivity.
Qed.

(** What [split_authority] returns: a network location without
    delimiters, made of characters of the URL, and a rest that is empty or
    starts with a delimiter when the URL starts with two slashes. *)
Lemma split_authority_shape (url : list N) :
  Forall (fun c => negb (is_delimiter c) = true) (fst (split_authority url))
  /\ (forall c, c ∈ fst (split_authority url) -> c ∈ url)
  /\ (fst (split_authority url) <> [] ->
      match snd (split_authority url) with
      | [] => True
      | c :: _ => is_delimiter c = true
      end).
Proof.
  destruct (str_eqb (slice_to url 2) (lit "//")) eqn:Heq.
  - apply starts_with_slashes in Heq as [rest ->].
    rewrite split_authority_slashes. cbn [fst snd].
    split; [apply take_while_all|]. split.
    + intros c Hc. right. right.
      rewrite <- (take_while_lstrip (fun c => negb (is_delimiter c)) rest).
      apply elem_of_app. left. exact Hc.
    + intros _.
      pose proof (lstrip_head (fun c => negb (is_delimiter c)) rest) as Hhead.
      destruct (lstrip rest _) as [|c t]; [exact I|].
      destruct (is_delimiter c); [reflexivity | discriminate].
  - unfold split_authority. rewrite Heq. cbn [fst snd].
    split; [constructor|]. split; [inversion 1 | congruence].
Qed.

Lemma scheme_chars_cases (c : N) :
  contains scheme_chars c = true
  <-> (97 <= c <= 122 \/ 65 <= c <= 90 \/ 48 <= c <= 57
       \/ c = 43 \/ c = 45 \/ c = 46)%N.
Proof.
  rewrite contains_true. unfold scheme_chars. rewrite !elem_of_app.
  rewrite (lit_range_elem _ 97 26), (lit_range_elem _ 65 26),
          (lit_range_elem _ 48 10) by reflexivity.
  change (lit "+-.") with [43%N; 45%N; 46%N].
  rewrite !elem_of_cons, elem_of_nil. lia.
Qed.

Lemma is_ascii_alpha_cases (c : N) :
  is_ascii_alpha c = true <-> (65 <= c <= 90 \/ 97 <= c <= 122)%N.
Proof.
  unfold is_ascii_alpha, is_ascii_upper, is_ascii_lower.
  rewrite orb_true_iff, !in_range_spec. tauto.
Qed.

Lemma is_scheme_name_spec (s : list N) :
  is_scheme_name s = true
  <-> (exists c rest, s = c :: rest /\ is_ascii_alpha c = true)
      /\ Forall (fun c => contains scheme_chars c = true) s.
Proof.
  unfold is_scheme_name. rewrite andb_true_iff, forallb_forall, Forall_forall.
  split.
  - intros [Hhead Hall]. split.
    + destruct s as [|c rest]; [discriminate | eauto].
    + intros c Hc. apply Hall, list_elem_of_In, Hc.
  - intros [(c & rest & -> & Hc) Hall]. split; [exact Hc|].
    intros x Hx. apply Hall, list_elem_of_In, Hx.
Qed.

(** What [split_scheme] does: either it finds no scheme and leaves the
    URL alone, or the URL is a scheme name, a colon and a rest. *)
Lemma split_scheme_cases (url default : list N) :
  split_scheme url default = (default, url)
  \/ exists s rest,
       url = s ++ 58%N :: rest /\ is_scheme_name s = true
       /\ split_scheme url default = (ascii_lower s, rest).
Proof.
  unfold split_scheme. change (chr ":") with 58%N.
  destruct (find url 58%N >? 0) eqn:Hi; [|left; reflexivity].
  destruct url as [|c url']; [left; reflexivity|].
  cbn [andb]. destruct (N.ltb c 128 && is_ascii_alpha c) eqn:Hc;
    [|left; reflexivity].
  destruct (forallb (contains scheme_chars)
              (slice_to (c :: url') (find (c :: url') 58%N))) eqn:Hall;
    [|left; reflexivity].
  right. apply Z.gtb_lt in Hi.
  destruct (find_aux_found (c :: url') 58%N 0 _ eq_refl) as (p & q & Heq & Hp & Hfind);
    [unfold find in Hi; lia | lia |].
  unfold find in *. rewrite Hfind in *. rewrite Heq in *.
  change (0 + len p) with (len p) in *.
  rewrite slice_to_app in *. rewrite slice_from_app_succ.
  exists p, q. split; [reflexivity|]. split; [|reflexivity].
  apply is_scheme_name_spec. split.
  - destruct p as [|x p']; [unfold len in Hi; simpl in Hi; lia|].
    injection Heq as <- _. apply andb_true_iff in Hc as [_ Hc]. eauto.
  - apply Forall_forall. intros x Hx. rewrite forallb_forall in Hall.
    apply Hall, list_elem_of_In, Hx.
Qed.

Lemma colon_not_scheme_char (s : list N) :
  Forall (fun c => contains scheme_chars c = true) s -> 58%N ∉ s.
Proof.
  intros Hall Hin. rewrite Forall_forall in Hall.
  apply Hall, scheme_chars_cases in Hin. lia.
Qed.

Lemma split_scheme_name (s rest default : list N) :
  is_scheme_name s = true ->
  split_scheme (s ++ 58%N :: rest) default = (ascii_lower s, rest).
Proof.
  intros Hs. apply is_scheme_name_spec in Hs as [(c & s' & -> & Hc) Hall].
  pose proof (colon_not_scheme_char _ Hall) as Hcolon.
  unfold split_scheme. change (chr ":") with 58%N. unfold find.
  rewrite (find_aux_app (c :: s') rest 58%N 0 Hcolon).
  change (0 + len (c :: s')) with (len (c :: s')).
  replace (len (c :: s') >? 0) with true
    by (symmetry; apply Z.gtb_lt; unfold len; simpl; lia).
  cbn [app andb]. rewrite Hc.
  replace (N.ltb c 128) with true
    by (symmetry; apply N.ltb_lt; apply is_ascii_alpha_cases in Hc; lia).
  cbn [andb].
  change (c :: s' ++ 58%N :: rest) with ((c :: s') ++ 58%N :: rest).
  rewrite slice_to_app, slice_from_app_succ.
  replace (forallb (contains scheme_chars) (c :: s')) with true; [reflexivity|].
  symmetry. apply forallb_forall. intros x Hx. rewrite Forall_forall in Hall.
  apply Hall, list_elem_of_In, Hx.
Qed.

Lemma split_scheme_no_letter (url default : list N) :
  match url with
  | [] => True
  | c :: _ => is_ascii_alpha c = false
  end ->
  split_scheme url default = (default, url).
Proof.
  intros Hhead. unfold split_scheme. destruct url as [|c url'].
  - rewrite andb_false_r. reflexivity.
  - rewrite Hhead, !andb_false_r. reflexivity.
Qed.

End SchemeAndAuthority.

(** ** How [urlsplit] takes a URL apart *)

Section UrlSplit.

Import Urllib UrlShape.
Context `{D : UrlDeps}.

Ltac destruct_pairs rest :=
  cbv zeta;
  destruct (_ && contains rest (chr "#"));
  [destruct (split1 rest (chr "#"))|]; cbn [fst snd];
  match goal with
  | |- context [contains ?x (chr "?")] =>
      destruct (contains x (chr "?")); [destruct (split1 x (chr "?"))|]
  end; reflexivity.

Lemma urlsplit_unfold (url scheme : list N) (allow_fragments : bool) :
  urlsplit url scheme allow_fragments
  = (let sr := split_scheme (clean url) (clean_scheme scheme) in
     let nr := split_authority (snd sr) in
     _ ← check_brackets (fst nr);
     let fr := if allow_fragments && contains (snd nr) (chr "#")
               then split1 (snd nr) (chr "#") else (snd nr, []) in
     let qr := if contains (fst fr) (chr "?")
               then split1 (fst fr) (chr "?") else (fst fr, []) in
     _ ← _checknetloc (fst nr);
     Ok (mkSplit (fst sr) (fst nr) (fst qr) (snd qr) (snd fr))).
Proof.
  unfold urlsplit.
  change (fold_left remove _UNSAFE_URL_BYTES_TO_REMOVE
            (lstrip url _WHATWG_C0_CONTROL_OR_SPACE)) with (clean url).
  change (fold_left remove _UNSAFE_URL_BYTES_TO_REMOVE
            (strip scheme _WHATWG_C0_CONTROL_OR_SPACE)) with (clean_scheme scheme).
  destruct (split_scheme (clean url) (clean_scheme scheme)) as [sch rest].
  cbn [fst snd]. unfold split_authority.
  destruct (str_eqb (slice_to rest 2) (lit "//")).
  - unfold check_brackets.
    destruct (_splitnetloc rest 2) as [netloc rest'']. cbn [fst snd].
    destruct (_ || _); [reflexivity|].
    destruct (contains netloc (chr "[") && contains netloc (chr "]")).
    + destruct (_check_bracketed_netloc netloc) as [[]|e]; [|reflexivity].
      cbn [mbind result_bind Py.bind].
      destruct_pairs rest''.
    + cbn [mbind result_bind Py.bind].
      destruct_pairs rest''.
  - cbn [fst snd]. change (check_brackets []) with (@Ok unit tt).
    cbn [mbind result_bind Py.bind].
    destruct_pairs rest.
Qed.

End UrlSplit.

Section UrlSplitFacts.

Import Urllib UrlShape.
Context `{D : UrlDeps}.

Lemma split_scheme_snd (url d1 d2 : list N) :
  snd (split_scheme url d1) = snd (split_scheme url d2).
Proof.
  unfold split_scheme.
  destruct (_ && _); [destruct (forallb _ _)|]; reflexivity.
Qed.

Lemma urlsplit_result (url default : list N) (allow_fragments : bool) :
  match urlsplit url default allow_fragments with
  | Ok r =>
      s_scheme r = scheme_of url default /\ s_netloc r = authority url
      /\ check_netloc (authority url) = Ok tt
  | Raise e => check_netloc (authority url) = Raise e
  end.
Proof.
  rewrite urlsplit_unfold. cbv zeta. unfold scheme_of, authority, check_netloc.
  rewrite (split_scheme_snd (clean url) [] (clean_scheme default)).
  destruct (check_brackets _) as [[]|e]; [|reflexivity].
  cbn [mbind result_bind Py.bind].
  destruct (_checknetloc _) as [[]|e]; [|reflexivity].
  cbn [mbind result_bind Py.bind s_scheme s_netloc]. auto.
Qed.

Lemma urlparse_with_result (url default : list N) (allow_fragments : bool) :
  match urlparse_with url default allow_fragments with
  | Ok p =>
      scheme p = scheme_of url default /\ netloc p = authority url
      /\ check_netloc (authority url) = Ok tt
  | Raise e => check_netloc (authority url) = Raise e
  end.
Proof.
  unfold urlparse_with.
  pose proof (urlsplit_result url default allow_fragments) as Hsplit.
  destruct (urlsplit url default allow_fragments) as [[sch n pa q f]|e];
    [|exact Hsplit].
  cbn [mbind result_bind Py.bind].
  match goal with
  | |- context [match ?x with (_, _) => _ end] => destruct x
  end. exact Hsplit.
Qed.

(** Whether parsing succeeds, and with which error it fails, depends
    neither on the default scheme nor on [allow_fragments]. *)
Lemma urlparse_with_ok (url default : list N) (allow_fragments : bool) :
  check_netloc (authority url) = Ok tt ->
  exists p, urlparse_with url default allow_fragments = Ok p
            /\ scheme p = scheme_of url default /\ netloc p = authority url.
Proof.
  intros Hcheck.
  pose proof (urlparse_with_result url default allow_fragments) as Hres.
  destruct (urlparse_with url default allow_fragments) as [p|e].
  - exists p. tauto.
  - congruence.
Qed.

Lemma urlparse_with_raise (url default : list N) (allow_fragments : bool)
    (e : exn) :
  check_netloc (authority url) = Raise e ->
  urlparse_with url default allow_fragments = Raise e.
Proof.
  intros Hcheck.
  pose proof (urlparse_with_result url default allow_fragments) as Hres.
  destruct (urlparse_with url default allow_fragments) as [p|e'].
  - destruct Hres as (_ & _ & Hok). congruence.
  - congruence.
Qed.

End UrlSplitFacts.

(** ** Putting a URL together and parsing it again *)

Section Rebuild.

Import Urllib UrlShape.
Context `{D : UrlDeps}.

Lemma split_scheme_rest_elem (url default : list N) (c : N) :
  c ∈ snd (split_scheme url default) -> c ∈ url.
Proof.
  destruct (split_scheme_cases url default) as [->|(s & rest & -> & _ & ->)];
    cbn [snd]; [auto|].
  intros Hc. apply elem_of_app. right. right. exact Hc.
Qed.

(** The network location that [urlsplit] finds contains no delimiter and
    none of the removed characters. *)
Lemma authority_chars (url : list N) :
  Forall (fun c => is_netloc_char c = true) (authority url).
Proof.
  unfold authority.
  destruct (split_authority_shape (snd (split_scheme (clean url) [])))
    as (Hnd & Helem & _).
  apply Forall_forall. intros c Hc. unfold is_netloc_char.
  rewrite Forall_forall in Hnd. rewrite (Hnd c Hc). cbn [andb].
  apply Helem, split_scheme_rest_elem in Hc. unfold clean in Hc.
  pose proof (remove_unsafe_safe
                (lstrip url _WHATWG_C0_CONTROL_OR_SPACE)) as Hsafe.
  rewrite Forall_forall in Hsafe. rewrite (Hsafe c Hc). reflexivity.
Qed.

Lemma netloc_char_split (n : list N) :
  Forall (fun c => is_netloc_char c = true) n ->
  Forall (fun c => negb (is_delimiter c) = true) n
  /\ Forall (fun c => is_unsafe c = false) n.
Proof.
  intros Hn. split; eapply Forall_impl; try exact Hn; intros c Hc;
    unfold is_netloc_char in Hc; apply andb_true_iff in Hc as [H1 H2];
    [exact H1 | destruct (is_unsafe c); [discriminate | reflexivity]].
Qed.

Lemma delimiter_safe (c : N) : is_delimiter c = true -> is_unsafe c = false.
Proof.
  intros Hc. apply is_delimiter_cases in Hc.
  destruct Hc as [ -> | [ -> | -> ] ]; reflexivity.
Qed.

(** After a network location, cleaning leaves a rest that is empty or
    starts with a delimiter as it is. *)
Lemma remove_unsafe_tail (tail : list N) :
  match tail with [] => True | c :: _ => is_delimiter c = true end ->
  match remove_unsafe tail with
  | [] => True
  | c :: _ => negb (is_delimiter c) = false
  end.
Proof.
  destruct tail as [|c tail]; [intros _; exact I|]. intros Hc.
  rewrite remove_unsafe_cons_safe by (apply delimiter_safe, Hc).
  rewrite Hc. reflexivity.
Qed.

Lemma scheme_name_safe (s : list N) :
  is_scheme_name s = true ->
  Forall (fun c => is_unsafe c = false) s
  /\ match s with
     | [] => False
     | c :: _ => _WHATWG_C0_CONTROL_OR_SPACE c = false
     end.
Proof.
  intros Hs. apply is_scheme_name_spec in Hs as [(c & rest & -> & Hc) Hall].
  split.
  - eapply Forall_impl; [exact Hall|]. intros x Hx.
    apply scheme_chars_cases in Hx. unfold is_unsafe.
    repeat match goal with
           | |- context [N.eqb x ?k] => destruct (N.eqb_spec x k)
           end; try reflexivity; lia.
  - apply is_ascii_alpha_cases in Hc. unfold _WHATWG_C0_CONTROL_OR_SPACE.
    apply N.leb_gt. lia.
Qed.

Lemma clean_named (s rest : list N) :
  is_scheme_name s = true ->
  clean (s ++ 58%N :: rest) = s ++ 58%N :: remove_unsafe rest.
Proof.
  intros Hs. destruct (scheme_name_safe s Hs) as [Hsafe Hhead].
  unfold clean. destruct s as [|c s']; [contradiction|].
  cbn [app lstrip]. rewrite Hhead.
  change (c :: s' ++ 58%N :: rest) with ((c :: s') ++ 58%N :: rest).
  rewrite remove_unsafe_app, (remove_unsafe_id _ Hsafe).
  rewrite remove_unsafe_cons_safe by reflexivity. reflexivity.
Qed.

(** A URL that starts with a scheme name and a colon has that scheme, in
    lower case, whatever follows. *)
Lemma scheme_of_named (s rest default : list N) :
  is_scheme_name s = true ->
  scheme_of (s ++ 58%N :: rest) default = ascii_lower s.
Proof.
  intros Hs. unfold scheme_of. rewrite (clean_named s rest Hs).
  rewrite (split_scheme_name _ _ _ Hs). reflexivity.
Qed.

Lemma authority_named (s n tail : list N) :
  is_scheme_name s = true ->
  Forall (fun c => is_netloc_char c = true) n ->
  match tail with [] => True | c :: _ => is_delimiter c = true end ->
  authority (s ++ 58%N :: 47%N :: 47%N :: n ++ tail) = n.
Proof.
  intros Hs Hn Htail. destruct (netloc_char_split n Hn) as [Hnd Hsafe].
  unfold authority. rewrite (clean_named s _ Hs).
  rewrite (split_scheme_name _ _ _ Hs). cbn [snd].
  rewrite !remove_unsafe_cons_safe by reflexivity.
  rewrite remove_unsafe_app, (remove_unsafe_id _ Hsafe).
  rewrite split_authority_slashes. cbn [fst].
  apply take_while_app; [exact Hnd | apply remove_unsafe_tail, Htail].
Qed.

Lemma authority_unnamed (n tail : list N) :
  Forall (fun c => is_netloc_char c = true) n ->
  match tail with [] => True | c :: _ => is_delimiter c = true end ->
  authority (47%N :: 47%N :: n ++ tail) = n
  /\ forall default,
       scheme_of (47%N :: 47%N :: n ++ tail) default = clean_scheme default.
Proof.
  intros Hn Htail. destruct (netloc_char_split n Hn) as [Hnd Hsafe].
  assert (Hclean : clean (47%N :: 47%N :: n ++ tail)
                   = 47%N :: 47%N :: n ++ remove_unsafe tail).
  { unfold clean. cbn [lstrip].
    change (_WHATWG_C0_CONTROL_OR_SPACE 47%N) with false. cbv iota.
    rewrite !remove_unsafe_cons_safe by reflexivity.
    rewrite remove_unsafe_app, (remove_unsafe_id _ Hsafe). reflexivity. }
  unfold authority, scheme_of. rewrite Hclean.
  split; [|intros default];
    rewrite split_scheme_no_letter by reflexivity; cbn [fst snd];
    [|reflexivity].
  rewrite split_authority_slashes. cbn [fst].
  apply take_while_app; [exact Hnd | apply remove_unsafe_tail, Htail].
Qed.

Lemma ascii_lower_scheme_name (s : list N) :
  is_scheme_name s = true ->
  is_scheme_name (ascii_lower s) = true
  /\ ascii_lower (ascii_lower s) = ascii_lower s.
Proof.
  intros Hs. apply is_scheme_name_spec in Hs as [(c & rest & -> & Hc) Hall].
  assert (Hlow : forall x, contains scheme_chars x = true ->
             contains scheme_chars (if is_ascii_upper x then (x + 32)%N else x)
             = true
             /\ is_ascii_upper (if is_ascii_upper x then (x + 32)%N else x)
                = false).
  { intros x Hx. apply scheme_chars_cases in Hx.
    unfold is_ascii_upper at 1 3.
    destruct (in_range 65 90 x) eqn:Hup.
    - apply in_range_spec in Hup. split.
      + apply scheme_chars_cases. lia.
      + apply not_true_iff_false. unfold is_ascii_upper.
        rewrite in_range_spec. lia.
    - split; [apply scheme_chars_cases; exact Hx | exact Hup]. }
  split.
  - apply is_scheme_name_spec. split.
    + cbn [ascii_lower map]. eexists _, _. split; [reflexivity|].
      apply is_ascii_alpha_cases in Hc. apply is_ascii_alpha_cases.
      unfold is_ascii_upper. destruct (in_range 65 90 c) eqn:Hup.
      * apply in_range_spec in Hup. lia.
      * apply not_true_iff_false in Hup. rewrite in_range_spec in Hup. lia.
    + unfold ascii_lower. apply Forall_forall. intros x Hx.
      apply list_elem_of_In, in_map_iff in Hx as (y & <- & Hy).
      rewrite Forall_forall in Hall. apply Hlow, Hall, list_elem_of_In, Hy.
  - unfold ascii_lower. rewrite map_map. apply map_ext_in. intros x Hx.
    rewrite Forall_forall in Hall. cbv beta.
    destruct (Hlow x (Hall x (proj2 (list_elem_of_In _ _) Hx))) as [_ Hup].
    match goal with
    | |- (if ?b then _ else _) = _ =>
        replace b with false by (symmetry; exact Hup)
    end. reflexivity.
Qed.

(** The scheme that [urlsplit] finds is the default or the lower-case
    form of a scheme name, which parses to itself. *)
Lemma scheme_of_cases (url default : list N) :
  (scheme_of url default = clean_scheme default /\ scheme_of url [] = [])
  \/ (scheme_of url default = scheme_of url []
      /\ is_scheme_name (scheme_of url []) = true
      /\ ascii_lower (scheme_of url []) = scheme_of url []).
Proof.
  unfold scheme_of.
  destruct (split_scheme_cases (clean url) (clean_scheme default))
    as [Hd|(s & rest & Hurl & Hs & Hd)].
  - left. rewrite Hd. split; [reflexivity|].
    destruct (split_scheme_cases (clean url) (clean_scheme []))
      as [H0|(s & rest & Hurl & Hs & H0)]; [rewrite H0; reflexivity|].
    rewrite Hurl, (split_scheme_name _ _ _ Hs) in Hd.
    injection Hd as _ Hrest.
    apply (f_equal (@length N)) in Hrest. rewrite length_app in Hrest.
    simpl in Hrest. lia.
  - right. rewrite Hd, Hurl, (split_scheme_name _ _ _ Hs). cbn [fst].
    destruct (ascii_lower_scheme_name s Hs) as [Hname Hidem]. auto.
Qed.

End Rebuild.

Section Unparse.

Import Urllib UrlShape.

Lemma truthy_true (s : list N) : truthy s = true <-> s <> [].
Proof.
  unfold truthy, str_eqb. rewrite negb_true_iff, bool_decide_eq_false. tauto.
Qed.

Lemma truthy_false (s : list N) : truthy s = false <-> s = [].
Proof.
  unfold truthy, str_eqb. rewrite negb_false_iff, bool_decide_eq_true. tauto.
Qed.

Lemma starts_with_slash (url : list N) :
  str_eqb (slice_to url 1) (lit "/") = true
  <-> exists rest, url = 47%N :: rest.
Proof.
  unfold str_eqb, slice_to. rewrite bool_decide_eq_true.
  rewrite slice_bound_nonneg by lia. change (Z.to_nat 1) with 1%nat.
  change (lit "/") with [47%N]. split.
  - destruct url as [|a rest]; cbn [take]; intros [=]. subst. eauto.
  - intros [rest ->]. reflexivity.
Qed.

(** With a network location, [urlunsplit] writes the two slashes, the
    network location, and then nothing or something that starts with "/",
    "?" or "#". *)
Lemma urlunsplit_shape (scheme netloc url query fragment : list N) :
  netloc <> [] ->
  exists tail,
    urlunsplit scheme netloc url query fragment
    = (if truthy scheme then scheme ++ [58%N] else [])
      ++ 47%N :: 47%N :: netloc ++ tail
    /\ match tail with [] => True | c :: _ => is_delimiter c = true end.
Proof.
  intros Hnetloc. unfold urlunsplit.
  rewrite (proj2 (truthy_true netloc) Hnetloc). cbn [orb].
  change (lit "//") with [47%N; 47%N]. change (lit ":") with [58%N].
  change (lit "?") with [63%N]. change (lit "#") with [35%N].
  change (lit "/") with [47%N] at 2.
  set (path := if truthy url && negb (str_eqb (slice_to url 1) (lit "/"))
               then [47%N] ++ url else url).
  assert (Hpath : match path with [] => True | c :: _ => c = 47%N end).
  { subst path. destruct (truthy url) eqn:Hurl; cbn [andb].
    - destruct (str_eqb (slice_to url 1) (lit "/")) eqn:Hslash; cbn [negb].
      + apply starts_with_slash in Hslash as [rest ->]. reflexivity.
      + reflexivity.
    - apply truthy_false in Hurl as ->. exact I. }
  exists (path ++ (if truthy query then [63%N] ++ query else [])
               ++ (if truthy fragment then [35%N] ++ fragment else [])).
  split.
  - destruct (truthy scheme), (truthy query), (truthy fragment);
      cbn [app]; rewrite <- ?app_assoc; cbn [app]; rewrite ?app_nil_r;
      rewrite <- ?app_assoc; reflexivity.
  - destruct path as [|c path']; [|subst c; reflexivity].
    cbn [app]. destruct (truthy query); [reflexivity|].
    cbn [app]. destruct (truthy fragment); [reflexivity | exact I].
Qed.

Lemma urlunparse_shape (p : ParseResult) :
  netloc p <> [] ->
  exists tail,
    urlunparse p
    = (if truthy (scheme p) then scheme p ++ [58%N] else [])
      ++ 47%N :: 47%N :: netloc p ++ tail
    /\ match tail with [] => True | c :: _ => is_delimiter c = true end.
Proof. intros Hn. unfold urlunparse. apply urlunsplit_shape, Hn. Qed.

(** With a scheme, [urlunparse] starts with the scheme and a colon. *)
Lemma urlunparse_scheme (p : ParseResult) :
  scheme p <> [] -> exists rest, urlunparse p = scheme p ++ 58%N :: rest.
Proof.
  intros Hs. unfold urlunparse, urlunsplit.
  rewrite (proj2 (truthy_true (scheme p)) Hs).
  change (lit ":") with [58%N].
  destruct (truthy (query p)), (truthy (fragment p));
    rewrite <- ?app_assoc; cbn [app]; eauto.
Qed.

End Unparse.

(** ** How [urljoin] resolves a target *)

Section UrlJoin.

Import Urllib UrlShape.
Context `{D : UrlDeps}.

Lemma member_spec (x : list N) (l : list (list N)) :
  member x l = true <-> In x l.
Proof.
  unfold member, str_eqb. rewrite existsb_exists. split.
  - intros (y & Hy & Heq). apply bool_decide_eq_true in Heq. subst. exact Hy.
  - intros Hx. exists x. split; [exact Hx | apply bool_decide_eq_true; reflexivity].
Qed.

(** Every scheme of [uses_relative] is in [uses_netloc], and is empty or
    a scheme name in lower case. *)
Lemma uses_relative_scheme (s : list N) :
  member s uses_relative = true ->
  member s uses_netloc = true
  /\ (s = [] \/ (is_scheme_name s = true /\ ascii_lower s = s)).
Proof.
  intros Hs. apply member_spec in Hs. unfold uses_relative in Hs.
  cbn [map In] in Hs.
  repeat destruct Hs as [<-|Hs];
    first [contradiction
          | split; [vm_compute; reflexivity
                   | first [left; reflexivity
                           | right; split; vm_compute; reflexivity]]].
Qed.

Lemma urljoin_spec (base url : list N) (b u : ParseResult) :
  base <> [] -> url <> [] ->
  urlparse_with base [] true = Ok b ->
  urlparse_with url (scheme b) true = Ok u ->
  ((scheme u <> scheme b \/ member (scheme u) uses_relative = false)
   /\ urljoin base url = Ok url)
  \/ (scheme u = scheme b /\ member (scheme u) uses_relative = true
      /\ exists p,
           urljoin base url = Ok (urlunparse p) /\ scheme p = scheme u
           /\ ((netloc u <> [] /\ netloc p = netloc u)
               \/ (netloc u = [] /\ netloc p = netloc b))).
Proof.
  intros Hbase Hurl Hb Hu. unfold urljoin.
  rewrite (proj2 (truthy_true base) Hbase), (proj2 (truthy_true url) Hurl).
  cbn [negb]. rewrite Hb. cbn [mbind result_bind Py.bind]. rewrite Hu.
  cbn [mbind result_bind Py.bind].
  destruct (str_eqb (scheme u) (scheme b)) eqn:Hscheme; cbn [negb orb].
  - apply bool_decide_eq_true in Hscheme.
    destruct (member (scheme u) uses_relative) eqn:Hrel; cbn [negb].
    + right. split; [exact Hscheme|]. split; [reflexivity|].
      destruct (uses_relative_scheme _ Hrel) as [Hnet _]. rewrite Hnet.
      cbn [andb]. destruct (truthy (netloc u)) eqn:Hn.
      * exists u. split; [reflexivity|]. split; [reflexivity|].
        left. split; [apply truthy_true, Hn | reflexivity].
      * apply truthy_false in Hn.
        destruct (negb (truthy (path u)) && negb (truthy (params u)));
          eexists; (split; [reflexivity|]); (split; [reflexivity|]);
          right; split; first [exact Hn | reflexivity].
    + left. split; [right; reflexivity | reflexivity].
  - apply bool_decide_eq_false in Hscheme.
    left. split; [left; exact Hscheme | reflexivity].
Qed.

Lemma urlparse_empty :
  urlparse [] = Ok (mkParse [] [] [] [] [] []).
Proof. reflexivity. Qed.

Lemma authority_empty : authority [] = [].
Proof. reflexivity. Qed.

End UrlJoin.

(** ** What [is_safe_url] decides *)

Section IsSafeUrl.

Import Urllib UrlShape.
Context `{D : UrlDeps}.

Lemma urlparse_result (url : list N) :
  match urlparse url with
  | Ok p =>
      scheme p = scheme_of url [] /\ netloc p = authority url
      /\ check_netloc (authority url) = Ok tt
  | Raise e => check_netloc (authority url) = Raise e
  end.
Proof. apply urlparse_with_result. Qed.

(** Parsing what [urlunparse] wrote gives the network location back, and
    the scheme when there is one. *)
Lemma reparse (p : ParseResult) :
  netloc p <> [] ->
  scheme p = [] \/ (is_scheme_name (scheme p) = true
                    /\ ascii_lower (scheme p) = scheme p) ->
  Forall (fun c => is_netloc_char c = true) (netloc p) ->
  check_netloc (netloc p) = Ok tt ->
  exists test,
    urlparse (urlunparse p) = Ok test /\ netloc test = netloc p
    /\ (scheme p <> [] -> scheme test = scheme p).
Proof.
  intros Hn Hs Hchars Hcheck.
  destruct (urlunparse_shape p Hn) as (tail & Hshape & Htail).
  assert (Hauth : authority (urlunparse p) = netloc p
                  /\ (scheme p <> [] ->
                      scheme_of (urlunparse p) [] = scheme p)).
  { rewrite Hshape. destruct Hs as [Hs|[Hname Hlow]].
    - rewrite Hs. cbn [truthy]. change (truthy []) with false. cbn [app].
      split; [apply authority_unnamed; assumption | congruence].
    - assert (Htruthy : truthy (scheme p) = true).
      { apply truthy_true. intros Hnil. rewrite Hnil in Hname. discriminate. }
      rewrite Htruthy, <- app_assoc. cbn [app]. split.
      + apply authority_named; assumption.
      + intros _. rewrite scheme_of_named by exact Hname. exact Hlow. }
  destruct Hauth as [Hauth Hscheme].
  destruct (urlparse_with_ok (urlunparse p) [] true) as (test & Htest & Hts & Htn);
    [rewrite Hauth; exact Hcheck|].
  exists test. split; [exact Htest|]. split; [congruence|].
  intros Hne. rewrite Hts. apply Hscheme, Hne.
Qed.

Lemma is_safe_url_of_test (host_url target joined : list N)
    (ref_url test_url : ParseResult) :
  urlparse host_url = Ok ref_url ->
  urljoin host_url target = Ok joined ->
  urlparse joined = Ok test_url ->
  Utils.is_safe_url host_url target
  = Ok (member (scheme test_url) [lit "http"; lit "https"]
        && str_eqb (netloc ref_url) (netloc test_url)).
Proof.
  intros Href Hjoin Htest. unfold Utils.is_safe_url.
  rewrite Href. cbn [mbind result_bind Py.bind]. rewrite Hjoin.
  cbn [mbind result_bind Py.bind]. rewrite Htest. reflexivity.
Qed.

Lemma str_eqb_refl (s : list N) : str_eqb s s = true.
Proof. apply bool_decide_eq_true. reflexivity. Qed.

Lemma str_eqb_false (a b : list N) : a <> b -> str_eqb a b = false.
Proof. intros H. apply bool_decide_eq_false. exact H. Qed.

(** A target that cannot be parsed makes [is_safe_url] raise. *)
Lemma is_safe_url_raise (host_url target : list N) (ref_url : ParseResult)
    (e : exn) :
  urlparse host_url = Ok ref_url ->
  urlparse target = Raise e ->
  Utils.is_safe_url host_url target = Raise e.
Proof.
  intros Href Htarget. unfold Utils.is_safe_url. rewrite Href.
  cbn [mbind result_bind Py.bind].
  pose proof (urlparse_result target) as Hres. rewrite Htarget in Hres.
  assert (Htne : truthy target = true).
  { apply truthy_true. intros ->. rewrite urlparse_empty in Htarget.
    discriminate. }
  unfold urljoin. destruct (truthy host_url) eqn:Hhost; cbn [negb].
  - rewrite Htne. cbn [negb]. unfold urlparse in Href. rewrite Href.
    cbn [mbind result_bind Py.bind].
    rewrite (urlparse_with_raise target (scheme ref_url) true e Hres).
    reflexivity.
  - cbn [mbind result_bind Py.bind]. rewrite Htarget. reflexivity.
Qed.

Lemma http_scheme_facts (s : list N) :
  s = lit "http" \/ s = lit "https" ->
  member s uses_relative = true /\ clean_scheme s = s
  /\ is_scheme_name s = true /\ ascii_lower s = s /\ s <> []
  /\ member s [lit "http"; lit "https"] = true.
Proof. intros [->| ->]; repeat split; try reflexivity; discriminate. Qed.

(** The second parse of [is_safe_url], when [urljoin] has rebuilt the URL
    from parts: its network location is the one that [urljoin] chose. *)
Lemma is_safe_url_rebuilt (host_url target : list N)
    (ref_url p : ParseResult) :
  urlparse host_url = Ok ref_url ->
  urljoin host_url target = Ok (urlunparse p) ->
  netloc p <> [] ->
  scheme p = [] \/ (is_scheme_name (scheme p) = true
                    /\ ascii_lower (scheme p) = scheme p) ->
  Forall (fun c => is_netloc_char c = true) (netloc p) ->
  check_netloc (netloc p) = Ok tt ->
  exists test,
    Utils.is_safe_url host_url target
    = Ok (member (scheme test) [lit "http"; lit "https"]
          && str_eqb (netloc ref_url) (netloc p))
    /\ (scheme p <> [] -> scheme test = scheme p)
    /\ urlparse (urlunparse p) = Ok test.
Proof.
  intros Href Hjoin Hn Hs Hchars Hcheck.
  destruct (reparse p Hn Hs Hchars Hcheck) as (test & Htest & Htn & Hts).
  exists test. split; [|split; assumption].
  rewrite (is_safe_url_of_test _ _ _ _ _ Href Hjoin Htest), Htn. reflexivity.
Qed.

(** Against an http or https origin with a network location,
    [is_safe_url] is decided by the target's own parse. *)
Lemma is_safe_url_decide (host_url target : list N) (ref_url u : ParseResult) :
  urlparse host_url = Ok ref_url ->
  scheme ref_url = lit "http" \/ scheme ref_url = lit "https" ->
  netloc ref_url <> [] ->
  urlparse target = Ok u ->
  Utils.is_safe_url host_url target
  = Ok (if truthy (netloc u)
        then member (scheme u) [[]; lit "http"; lit "https"]
             && str_eqb (netloc ref_url) (netloc u)
        else str_eqb (scheme u) [] || str_eqb (scheme u) (scheme ref_url)).
Proof.
  intros Href Hhttp Hrn Hu.
  destruct (http_scheme_facts _ Hhttp)
    as (Hrel & Hclean & Hname & Hlow & Hsne & Hmem).
  pose proof (urlparse_result host_url) as Hr. rewrite Href in Hr.
  destruct Hr as (Hrs & Hrnet & Hrcheck).
  pose proof (urlparse_result target) as Ht. rewrite Hu in Ht.
  destruct Ht as (Hus & Hunet & Hucheck).
  assert (Hhost : host_url <> []).
  { intros ->. apply Hrn. rewrite Hrnet. reflexivity. }
  destruct (decide (target = [])) as [->|Htarget].
  { rewrite urlparse_empty in Hu. injection Hu as <-. cbn [netloc scheme].
    change (truthy []) with false. cbv iota. rewrite str_eqb_refl. cbn [orb].
    assert (Hjoin : urljoin host_url [] = Ok host_url).
    { unfold urljoin. rewrite (proj2 (truthy_true _) Hhost). reflexivity. }
    rewrite (is_safe_url_of_test _ _ _ _ _ Href Hjoin Href).
    rewrite Hmem, str_eqb_refl. reflexivity. }
  destruct (urlparse_with_ok target (scheme ref_url) true Hucheck)
    as (u' & Hu' & Hu's & Hu'n).
  assert (Hnet : netloc u' = netloc u) by congruence.
  unfold urlparse in Href.
  destruct (urljoin_spec host_url target ref_url u' Hhost Htarget Href Hu')
    as [[Hcond Hjoin]|(Hsame & Hurel & p & Hjoin & Hps & Hpn)].
  - fold (urlparse host_url) in Href.
    rewrite (is_safe_url_of_test _ _ _ _ _ Href Hjoin Hu). f_equal.
    destruct (scheme_of_cases target (scheme ref_url))
      as [[Hdef Hnone]|(Hown & Hownname & _)].
    + exfalso. rewrite Hclean in Hdef.
      assert (scheme u' = scheme ref_url) by congruence.
      destruct Hcond as [Hne|Hnrel]; [contradiction|]. congruence.
    + assert (Heq : scheme u' = scheme u) by congruence.
      assert (Hune : scheme u <> []).
      { rewrite Hus. intros Hnil. rewrite Hnil in Hownname. discriminate. }
      rewrite Heq in Hcond.
      assert (Hmem3 : member (scheme u) [[]; lit "http"; lit "https"]
                      = member (scheme u) [lit "http"; lit "https"]).
      { unfold member. cbn [existsb].
        rewrite (str_eqb_false _ _ Hune). reflexivity. }
      destruct (truthy (netloc u)) eqn:Hun.
      * rewrite Hmem3. reflexivity.
      * apply truthy_false in Hun. rewrite Hun.
        rewrite (str_eqb_false _ _ Hrn), andb_false_r.
        rewrite (str_eqb_false _ _ Hune). cbn [orb]. symmetry.
        apply str_eqb_false. intros Hsch.
        destruct Hcond as [Hne|Hnrel]; [contradiction|]. congruence.
  - fold (urlparse host_url) in Href.
    assert (Hpscheme : scheme p = scheme ref_url) by congruence.
    assert (Hpn' : netloc p <> []
                   /\ Forall (fun c => is_netloc_char c = true) (netloc p)
                   /\ check_netloc (netloc p) = Ok tt).
    { destruct Hpn as [[Hne ->]|[_ ->]].
      - split; [exact Hne|]. rewrite Hu'n.
        split; [apply authority_chars | exact Hucheck].
      - split; [exact Hrn|]. rewrite Hrnet.
        split; [apply authority_chars | exact Hrcheck]. }
    destruct Hpn' as (Hpne & Hpchars & Hpcheck).
    destruct (is_safe_url_rebuilt host_url target ref_url p Href Hjoin Hpne)
      as (test & -> & Hts & _); try assumption.
    { right. rewrite Hpscheme. split; assumption. }
    rewrite Hts by (rewrite Hpscheme; exact Hsne).
    rewrite Hpscheme, Hmem. cbn [andb]. f_equal.
    assert (Hschemes : str_eqb (scheme u) []
                       || str_eqb (scheme u) (scheme ref_url) = true
                       /\ member (scheme u) [[]; lit "http"; lit "https"]
                          = true).
    { destruct (scheme_of_cases target (scheme ref_url))
        as [[_ Hnone]|(Hown & _)].
      - rewrite Hus, Hnone. split; reflexivity.
      - assert (Heq : scheme u = scheme ref_url) by congruence.
        rewrite Heq, str_eqb_refl, orb_true_r. split; [reflexivity|].
        unfold member in *. cbn [existsb] in *. rewrite Hmem.
        apply orb_true_r. }
    destruct Hschemes as [Hor Hmem3].
    destruct Hpn as [[Hne ->]|[Hnil ->]].
    + rewrite Hnet in *. rewrite (proj2 (truthy_true _) Hne), Hmem3.
      reflexivity.
    + rewrite Hnet in Hnil. rewrite Hnil. change (truthy []) with false.
      cbv iota. rewrite Hor. apply str_eqb_refl.
Qed.

End IsSafeUrl.

Section SlashTargets.

Import Urllib UrlShape.
Context `{D : UrlDeps}.

Lemma urlparse_no_authority (target : list N) :
  scheme_of target [] = [] -> authority target = [] ->
  exists u, urlparse target = Ok u /\ scheme u = [] /\ netloc u = [].
Proof.
  intros Hs Hn.
  destruct (urlparse_with_ok target [] true) as (u & Hu & Hus & Hun);
    [rewrite Hn; reflexivity|].
  exists u. split; [exact Hu|]. split; congruence.
Qed.

(** A target that starts with one slash has neither a scheme nor a
    network location. *)
Lemma single_slash_target (rest : list N) :
  match rest with
  | [] => True
  | c :: _ => c <> 47%N /\ is_unsafe c = false
  end ->
  scheme_of (47%N :: rest) [] = [] /\ authority (47%N :: rest) = [].
Proof.
  intros Hrest.
  assert (Hclean : clean (47%N :: rest) = 47%N :: remove_unsafe rest).
  { unfold clean. cbn [lstrip].
    change (_WHATWG_C0_CONTROL_OR_SPACE 47%N) with false. cbv iota.
    apply remove_unsafe_cons_safe. reflexivity. }
  unfold scheme_of, authority. rewrite Hclean.
  rewrite !split_scheme_no_letter by reflexivity. cbn [fst snd].
  split; [reflexivity|].
  rewrite split_authority_other; [reflexivity|].
  intros r Heq. destruct rest as [|c rest'].
  - discriminate Heq.
  - destruct Hrest as [Hc Hsafe].
    rewrite (remove_unsafe_cons_safe _ _ Hsafe) in Heq. congruence.
Qed.

(** So has a target that starts with three slashes: its network location
    is the empty text between the second and the third. *)
Lemma triple_slash_target (rest : list N) :
  scheme_of (47%N :: 47%N :: 47%N :: rest) [] = []
  /\ authority (47%N :: 47%N :: 47%N :: rest) = [].
Proof.
  assert (Hclean : clean (47%N :: 47%N :: 47%N :: rest)
                   = 47%N :: 47%N :: 47%N :: remove_unsafe rest).
  { unfold clean. cbn [lstrip].
    change (_WHATWG_C0_CONTROL_OR_SPACE 47%N) with false. cbv iota.
    rewrite !remove_unsafe_cons_safe by reflexivity. reflexivity. }
  unfold scheme_of, authority. rewrite Hclean.
  rewrite !split_scheme_no_letter by reflexivity. cbn [fst snd].
  split; [reflexivity|].
  rewrite split_authority_slashes. reflexivity.
Qed.

(** A network location that opens a bracket and does not close it. *)
Lemma open_bracket_target (rest : list N) :
  93%N ∉ rest ->
  check_netloc (authority (47%N :: 47%N :: 91%N :: rest))
  = Raise (ValueError (lit "Invalid IPv6 URL")).
Proof.
  intros Hrest.
  assert (Hclean : clean (47%N :: 47%N :: 91%N :: rest)
                   = 47%N :: 47%N :: 91%N :: remove_unsafe rest).
  { unfold clean. cbn [lstrip].
    change (_WHATWG_C0_CONTROL_OR_SPACE 47%N) with false. cbv iota.
    rewrite !remove_unsafe_cons_safe by reflexivity. reflexivity. }
  unfold authority. rewrite Hclean.
  rewrite split_scheme_no_letter by reflexivity. cbn [snd].
  rewrite split_authority_slashes. cbn [fst take_while].
  change (negb (is_delimiter 91%N)) with true. cbv iota.
  set (n := take_while _ _).
  assert (Hn : contains (91%N :: n) (chr "]") = false).
  { apply contains_false. change (chr "]") with 93%N. intros Hin.
    inversion Hin as [|? ? ? Hin']; subst. apply Hrest.
    assert (Hsub : 93%N ∈ remove_unsafe rest).
    { rewrite <- (take_while_lstrip (fun c => negb (is_delimiter c))
                    (remove_unsafe rest)).
      apply elem_of_app. left. exact Hin'. }
    rewrite remove_unsafe_filter in Hsub.
    apply list_elem_of_In, filter_In in Hsub as [Hsub _].
    apply list_elem_of_In, Hsub. }
  unfold check_netloc, check_brackets. rewrite Hn.
  change (contains (91%N :: n) (chr "[")) with true. reflexivity.
Qed.

End SlashTargets.

Section ForeignAuthority.

Import Urllib UrlShape.
Context `{D : UrlDeps}.

Lemma is_safe_url_foreign (host_url target : list N)
    (ref_url u : ParseResult) :
  urlparse host_url = Ok ref_url ->
  urlparse target = Ok u ->
  netloc u <> [] -> netloc u <> netloc ref_url ->
  Utils.is_safe_url host_url target = Ok false.
Proof.
  intros Href Hu Hune Hdiff.
  pose proof (urlparse_result target) as Ht. rewrite Hu in Ht.
  destruct Ht as (Hus & Hunet & Hucheck).
  assert (Hfalse : str_eqb (netloc ref_url) (netloc u) = false)
    by (apply str_eqb_false; congruence).
  assert (Htarget : target <> []).
  { intros ->. apply Hune. rewrite Hunet. reflexivity. }
  destruct (decide (host_url = [])) as [->|Hhost].
  { assert (Hjoin : urljoin [] target = Ok target) by reflexivity.
    rewrite (is_safe_url_of_test _ _ _ _ _ Href Hjoin Hu), Hfalse.
    rewrite andb_false_r. reflexivity. }
  destruct (urlparse_with_ok target (scheme ref_url) true Hucheck)
    as (u' & Hu' & Hu's & Hu'n).
  unfold urlparse in Href.
  destruct (urljoin_spec host_url target ref_url u' Hhost Htarget Href Hu')
    as [[_ Hjoin]|(_ & Hurel & p & Hjoin & Hps & Hpn)];
    fold (urlparse host_url) in Href.
  - rewrite (is_safe_url_of_test _ _ _ _ _ Href Hjoin Hu), Hfalse.
    rewrite andb_false_r. reflexivity.
  - assert (Hpnet : netloc p = netloc u).
    { destruct Hpn as [[_ ->]|[Hnil _]]; congruence. }
    destruct (uses_relative_scheme _ Hurel) as [_ Hsch].
    rewrite <- Hps in Hsch.
    destruct (is_safe_url_rebuilt host_url target ref_url p Href Hjoin)
      as (test & -> & _); try assumption.
    + congruence.
    + rewrite Hpnet, Hunet. apply authority_chars.
    + rewrite Hpnet, Hunet. exact Hucheck.
    + rewrite Hpnet, Hfalse, andb_false_r. reflexivity.
Qed.

End ForeignAuthority.

Lemma is_safe_url_by_target_lemma (D : UrlDeps) (host_url target : list N)
    (ref_url : Urllib.ParseResult) :
  Urllib.urlparse host_url = Ok ref_url ->
  Urllib.scheme ref_url = lit "http" \/ Urllib.scheme ref_url = lit "https" ->
  Urllib.netloc ref_url <> [] ->
  Utils.is_safe_url host_url target
  = (u ← Urllib.urlparse target;
     Ok (if Urllib.truthy (Urllib.netloc u)
         then Urllib.member (Urllib.scheme u) [[]; lit "http"; lit "https"]
              && str_eqb (Urllib.netloc ref_url) (Urllib.netloc u)
         else str_eqb (Urllib.scheme u) []
              || str_eqb (Urllib.scheme u) (Urllib.scheme ref_url))).
Proof.
  intros Href Hhttp Hn.
  destruct (Urllib.urlparse target) as [u|e] eqn:Hu.
  - apply (is_safe_url_decide host_url target ref_url u); assumption.
  - apply (is_safe_url_raise host_url target ref_url e); assumption.
Qed.

(** X8. Against an http or https origin that has a network location,
    [is_safe_url] is decided by the target's own parse: it raises what
    parsing the target raises; a target without a network location is
    accepted iff it has no scheme or the origin's scheme; a target with a
    network location is accepted iff that is exactly the origin's and its
    scheme is absent, http or https. *)
Theorem is_safe_url_by_target (D : UrlDeps) (host_url target : str)
    (ref_url : Urllib.ParseResult) :
  Urllib.urlparse host_url = Ok ref_url ->
  Urllib.scheme ref_url = lit "http" \/ Urllib.scheme ref_url = lit "https" ->
  Urllib.netloc ref_url <> [] ->
  Utils.is_safe_url host_url target
  = (u ← Urllib.urlparse target;
     Ok (if Urllib.truthy (Urllib.netloc u)
         then Urllib.member (Urllib.scheme u) [[]; lit "http"; lit "https"]
              && str_eqb (Urllib.netloc ref_url) (Urllib.netloc u)
         else str_eqb (Urllib.scheme u) []
              || str_eqb (Urllib.scheme u) (Urllib.scheme ref_url))).
Proof. apply is_safe_url_by_target_lemma. Qed.

(** Against "https://app.example/", the target
    "https://app.example/event/abc123?x=1" is accepted. *)
Lemma is_safe_url_by_target_example :
  Utils.is_safe_url (H := Standins.ascii_url_deps) (lit "https://app.example/")
    (lit "https://app.example/event/abc123?x=1")
  = Ok true.
Proof.
  etransitivity.
  - apply (is_safe_url_by_target Standins.ascii_url_deps
             (lit "https://app.example/")
             (lit "https://app.example/event/abc123?x=1")
             (Urllib.mkParse (lit "https") (lit "app.example") (lit "/")
                [] [] []));
      [reflexivity | right; reflexivity | discriminate].
  - reflexivity.
Defined.

(** X9. Whatever the origin, [is_safe_url] returns false for a target
    that parses with a network location of its own, different from the
    origin's. *)
Theorem is_safe_url_rejects_other_netloc (D : UrlDeps)
    (host_url target : str) (ref_url u : Urllib.ParseResult) :
  Urllib.urlparse host_url = Ok ref_url ->
  Urllib.urlparse target = Ok u ->
  Urllib.netloc u <> [] ->
  Urllib.netloc u <> Urllib.netloc ref_url ->
  Utils.is_safe_url host_url target = Ok false.
Proof. apply is_safe_url_foreign. Qed.

(** The protocol-relative target "//evil.example/x". *)
Lemma is_safe_url_rejects_other_netloc_example :
  Utils.is_safe_url (H := Standins.ascii_url_deps) (lit "https://app.example/")
    (lit "//evil.example/x")
  = Ok false.
Proof.
  apply (is_safe_url_rejects_other_netloc Standins.ascii_url_deps
           (lit "https://app.example/") (lit "//evil.example/x")
           (Urllib.mkParse (lit "https") (lit "app.example") (lit "/") [] [] [])
           (Urllib.mkParse [] (lit "evil.example") (lit "/x") [] [] []));
    [reflexivity | reflexivity | discriminate | discriminate].
Defined.

(** X10. Against an http or https origin that has a network location,
    [is_safe_url] accepts every target that starts with one slash followed
    by nothing or by a character other than a slash, a tab, a carriage
    return or a line feed, and every target that starts with three
    slashes, whatever follows. *)
Theorem is_safe_url_accepts_slash_targets (D : UrlDeps) (host_url : str)
    (ref_url : Urllib.ParseResult) :
  Urllib.urlparse host_url = Ok ref_url ->
  Urllib.scheme ref_url = lit "http" \/ Urllib.scheme ref_url = lit "https" ->
  Urllib.netloc ref_url <> [] ->
  Utils.is_safe_url host_url (lit "/") = Ok true
  /\ (forall (c : codepoint) (rest : str),
        c <> chr "/" -> UrlShape.is_unsafe c = false ->
        Utils.is_safe_url host_url (lit "/" ++ c :: rest) = Ok true)
  /\ (forall rest : str,
        Utils.is_safe_url host_url (lit "///" ++ rest) = Ok true).
Proof.
  intros Href Hhttp Hn.
  assert (Haccept : forall target,
             UrlShape.scheme_of target [] = [] /\ UrlShape.authority target = [] ->
             Utils.is_safe_url host_url target = Ok true).
  { intros target [Hs Ha].
    destruct (urlparse_no_authority target Hs Ha) as (u & Hu & Hus & Hun).
    rewrite (is_safe_url_decide host_url target ref_url u Href Hhttp Hn Hu).
    rewrite Hun, Hus. reflexivity. }
  split; [|split].
  - apply Haccept. apply (single_slash_target []). exact I.
  - intros c rest Hc Hsafe. apply Haccept.
    apply (single_slash_target (c :: rest)). split; assumption.
  - intros rest. apply Haccept. apply triple_slash_target.
Qed.

Lemma is_safe_url_accepts_slash_targets_example :
  Utils.is_safe_url (H := Standins.ascii_url_deps) (lit "https://app.example/")
    (lit "///evil.example")
  = Ok true.
Proof.
  apply (is_safe_url_accepts_slash_targets Standins.ascii_url_deps
           (lit "https://app.example/")
           (Urllib.mkParse (lit "https") (lit "app.example") (lit "/") [] [] []));
    [reflexivity | right; reflexivity | discriminate].
Defined.

(** X11. [is_safe_url] raises when the target cannot be parsed, and
    [redirect_with_next] with it: whatever the origin, a target that starts
    with "//[" and has no "]" raises ValueError("Invalid IPv6 URL"). *)
Theorem is_safe_url_raises_on_open_bracket (D : UrlDeps) (host_url rest : str)
    (ref_url : Urllib.ParseResult) (url_for : result str) :
  Urllib.urlparse host_url = Ok ref_url ->
  chr "]" ∉ rest ->
  Utils.is_safe_url host_url (lit "//[" ++ rest)
  = Raise (ValueError (lit "Invalid IPv6 URL"))
  /\ Utils.redirect_with_next host_url (Some (lit "//[" ++ rest)) url_for
     = Raise (ValueError (lit "Invalid IPv6 URL")).
Proof.
  intros Href Hrest.
  assert (Hsafe : Utils.is_safe_url host_url (lit "//[" ++ rest)
                  = Raise (ValueError (lit "Invalid IPv6 URL"))).
  { apply (is_safe_url_raise host_url _ ref_url); [exact Href|].
    apply urlparse_with_raise. apply open_bracket_target. exact Hrest. }
  split; [exact Hsafe|].
  unfold Utils.redirect_with_next.
  change (Urllib.truthy (lit "//[" ++ rest)) with true. cbn [negb].
  rewrite Hsafe. reflexivity.
Qed.

Lemma is_safe_url_raises_on_open_bracket_example :
  Utils.redirect_with_next (H := Standins.ascii_url_deps)
    (lit "https://app.example/") (Some (lit "//[/event")) (Ok (lit "/home"))
  = Raise (ValueError (lit "Invalid IPv6 URL")).
Proof.
  apply (is_safe_url_raises_on_open_bracket Standins.ascii_url_deps
           (lit "https://app.example/") (lit "/event")
           (Urllib.mkParse (lit "https") (lit "app.example") (lit "/") [] [] [])
           (Ok (lit "/home")) eq_refl).
  vm_compute. intros Hin.
  repeat (inversion Hin as [|? ? ? Hin']; subst; clear Hin; rename Hin' into Hin).
Defined.

(** X12. [redirect_with_next] redirects either to [url_for(endpoint)] or
    to the client's [next], unchanged, and to [next] only when it is not
    empty and [is_safe_url] accepted it.  Against an http or https origin
    that has a network location, such a [next] parses without a network
    location or with exactly the origin's. *)
Theorem redirect_with_next_target (D : UrlDeps) (host_url : str)
    (ref_url : Urllib.ParseResult) (next : option str) (url_for : result str)
    (target : str) :
  Urllib.urlparse host_url = Ok ref_url ->
  Urllib.scheme ref_url = lit "http" \/ Urllib.scheme ref_url = lit "https" ->
  Urllib.netloc ref_url <> [] ->
  Utils.redirect_with_next host_url next url_for = Ok (Utils.redirect target) ->
  url_for = Ok target
  \/ (next = Some target /\ target <> []
      /\ Utils.is_safe_url host_url target = Ok true
      /\ exists u, Urllib.urlparse target = Ok u
                   /\ (Urllib.netloc u = []
                       \/ Urllib.netloc u = Urllib.netloc ref_url)).
Proof.
  intros Href Hhttp Hn. unfold Utils.redirect_with_next.
  assert (Hfallback :
            (t ← url_for; Ok (Utils.redirect t)) = Ok (Utils.redirect target) ->
            url_for = Ok target).
  { destruct url_for as [t|e]; cbn [mbind result_bind Py.bind];
      [intros [= ->]; reflexivity | discriminate]. }
  destruct next as [t|]; [|intros H; left; apply Hfallback, H].
  destruct (Urllib.truthy t) eqn:Ht; cbn [negb];
    [|intros H; left; apply Hfallback, H].
  destruct (Utils.is_safe_url host_url t) as [[|]|e] eqn:Hsafe;
    cbn [mbind result_bind Py.bind negb];
    [|intros H; left; apply Hfallback, H | discriminate].
  intros [= <-]. right. split; [reflexivity|].
  split; [apply truthy_true, Ht|]. split; [exact Hsafe|].
  rewrite (is_safe_url_by_target_lemma D host_url t ref_url Href Hhttp Hn)
    in Hsafe.
  destruct (Urllib.urlparse t) as [u|e]; cbn [mbind result_bind Py.bind] in Hsafe;
    [|discriminate].
  exists u. split; [reflexivity|]. injection Hsafe as Hsafe.
  destruct (Urllib.truthy (Urllib.netloc u)) eqn:Hun.
  - right. apply andb_true_iff in Hsafe as [_ Heq].
    apply bool_decide_eq_true in Heq. congruence.
  - left. apply truthy_false, Hun.
Qed.

(** Against "https://app.example/", the target "/event/abc123" is used,
    and [is_safe_url] accepted it. *)
Lemma redirect_with_next_target_example :
  Utils.redirect_with_next (H := Standins.ascii_url_deps) (lit "https://app.example/")
    (Some (lit "/event/abc123")) (Ok (lit "/home"))
  = Ok (Utils.redirect (lit "/event/abc123"))
  /\ Utils.is_safe_url (H := Standins.ascii_url_deps) (lit "https://app.example/")
       (lit "/event/abc123") = Ok true.
Proof.
  split; [reflexivity|].
  destruct (redirect_with_next_target Standins.ascii_url_deps
              (lit "https://app.example/")
              (Urllib.mkParse (lit "https") (lit "app.example") (lit "/")
                 [] [] [])
              (Some (lit "/event/abc123")) (Ok (lit "/home"))
              (lit "/event/abc123") eq_refl (or_intror eq_refl)
              ltac:(discriminate) eq_refl) as [Hfb|(_ & _ & Hsafe & _)].
  - discriminate Hfb.
  - exact Hsafe.
Defined.

(** ** The salt of a new user *)

Section NewUser.

Lemma hex_digit_elem (d : N) :
  (d < 16)%N -> Uuid.hex_digit d ∈ lit "0123456789abcdef".
Proof.
  intros Hd.
  assert (Hcases : (d = 0 \/ d = 1 \/ d = 2 \/ d = 3 \/ d = 4 \/ d = 5 \/ d = 6
                    \/ d = 7 \/ d = 8 \/ d = 9 \/ d = 10 \/ d = 11 \/ d = 12
                    \/ d = 13 \/ d = 14 \/ d = 15)%N) by lia.
  apply list_elem_of_In.
  repeat destruct Hcases as [Hcases|Hcases]; subst d; vm_compute;
    repeat (first [left; reflexivity | right]).
Qed.

Lemma hex_digits_elem (fuel : nat) (n : N) (acc : list N) :
  Forall (fun c => c ∈ lit "0123456789abcdef") acc ->
  Forall (fun c => c ∈ lit "0123456789abcdef") (Uuid.hex_digits fuel n acc).
Proof.
  revert n acc. induction fuel as [|fuel IH]; intros n acc Hacc; [exact Hacc|].
  cbn [Uuid.hex_digits].
  assert (Hd : Forall (fun c => c ∈ lit "0123456789abcdef")
                 (Uuid.hex_digit (n mod 16) :: acc)).
  { constructor; [|exact Hacc]. apply hex_digit_elem.
    apply N.mod_upper_bound. discriminate. }
  destruct (N.eqb (n / 16) 0); [exact Hd|]. apply IH. exact Hd.
Qed.

Lemma hex_digits_length (fuel : nat) (n : N) (acc : list N) (k : nat) :
  (n < 16 ^ N.of_nat (S k))%N ->
  (length (Uuid.hex_digits fuel n acc) <= length acc + S k)%nat.
Proof.
  revert n acc k. induction fuel as [|fuel IH]; intros n acc k Hn.
  - cbn [Uuid.hex_digits]. lia.
  - cbn [Uuid.hex_digits]. destruct (N.eqb_spec (n / 16) 0%N) as [Hq|Hq].
    + cbn [length]. lia.
    + destruct k as [|k].
      * exfalso. apply Hq. apply N.div_small. exact Hn.
      * etransitivity; [apply (IH _ _ k)|cbn [length]; lia].
        apply N.Div0.div_lt_upper_bound.
        rewrite <- N.pow_succ_r'. rewrite <- Nat2N.inj_succ. exact Hn.
Qed.

Lemma format_032x_length (n : N) :
  (n < N.shiftl 1 128)%N -> length (Uuid.format_032x n) = 32%nat.
Proof.
  intros Hn. unfold Uuid.format_032x, Uuid.format_x.
  pose proof (hex_digits_length (S (N.to_nat (N.log2 n))) n [] 31) as Hlen.
  rewrite length_app, repeat_length.
  cbn [length] in Hlen.
  assert (Hn' : (n < 16 ^ N.of_nat 32)%N) by exact Hn.
  specialize (Hlen Hn'). lia.
Qed.

Lemma format_032x_elem (n : N) :
  Forall (fun c => c ∈ lit "0123456789abcdef") (Uuid.format_032x n).
Proof.
  unfold Uuid.format_032x, Uuid.format_x. apply Forall_app. split.
  - apply Forall_forall. intros c Hc. apply list_elem_of_In in Hc.
    apply repeat_spec in Hc. subst c.
    apply list_elem_of_In. vm_compute. left. reflexivity.
  - apply hex_digits_elem. constructor.
Qed.

Lemma lor_below (a b k : N) :
  (0 < k)%N -> (a < 2 ^ k)%N -> (b < 2 ^ k)%N -> (N.lor a b < 2 ^ k)%N.
Proof.
  intros Hk Ha Hb.
  assert (Hlog : forall x, (x < 2 ^ k)%N -> (N.log2 x < k)%N).
  { intros x Hx. destruct (N.eq_dec x 0%N) as [->|Hx0]; [exact Hk|].
    apply N.log2_lt_pow2; [lia|exact Hx]. }
  destruct (N.eq_dec (N.lor a b) 0%N) as [->|Hne].
  - apply N.neq_0_lt_0. apply N.pow_nonzero. discriminate.
  - apply N.log2_lt_pow2; [lia|]. rewrite N.log2_lor.
    apply N.max_lub_lt; [apply Hlog, Ha|apply Hlog, Hb].
Qed.

Lemma uuid4_hex_shape (random_bytes : list N) (hex : list N) :
  Uuid.uuid4_hex random_bytes = Ok hex ->
  length random_bytes = 16%nat
  /\ length hex = 32%nat
  /\ Forall (fun c => c ∈ lit "0123456789abcdef") hex.
Proof.
  unfold Uuid.uuid4_hex.
  destruct (Nat.eqb_spec (length random_bytes) 16) as [Hlen|Hlen];
    cbn [negb]; [|discriminate].
  destruct (N.ltb_spec (Uuid.int_from_bytes random_bytes) (N.shiftl 1 128))
    as [Hint|Hint]; cbn [negb]; [|discriminate].
  intros [= <-]. split; [exact Hlen|]. split; [|apply format_032x_elem].
  apply format_032x_length.
  change (N.shiftl 1 128) with (2 ^ 128)%N in *.
  apply lor_below; [reflexivity| |reflexivity].
  eapply N.le_lt_trans; [apply N.ldiff_le_l|].
  apply lor_below; [reflexivity| |reflexivity].
  eapply N.le_lt_trans; [apply N.ldiff_le_l|]. exact Hint.
Qed.

Lemma int_from_bytes_below (random_bytes : list N) :
  Forall (fun b => (b < 256)%N) random_bytes ->
  (Uuid.int_from_bytes random_bytes < 256 ^ N.of_nat (length random_bytes))%N.
Proof.
  intros Hbytes. unfold Uuid.int_from_bytes.
  assert (Hgen : forall (acc : N) (k : nat),
             (acc < 256 ^ N.of_nat k)%N ->
             (fold_left (fun acc b => (acc * 256 + b)%N) random_bytes acc
              < 256 ^ N.of_nat (k + length random_bytes))%N).
  { induction Hbytes as [|b bytes Hb _ IH]; intros acc k Hacc.
    - cbn [fold_left length]. rewrite Nat.add_0_r. exact Hacc.
    - cbn [fold_left length].
      replace (k + S (length bytes))%nat with (S k + length bytes)%nat by lia.
      apply IH. rewrite Nat2N.inj_succ, N.pow_succ_r'. lia. }
  apply (Hgen 0%N 0%nat). reflexivity.
Qed.

End NewUser.

(** X13. [User.__init__] gives the new user a salt of exactly 32
    characters, all of them lowercase hexadecimal digits (so that it fits
    the [String(32)] column), computed from sixteen random bytes and
    nothing else; the password is stored under that salt, so that
    [check_password] on the same password returns true, and the other
    columns are as [Model.__init__] left them. *)
Theorem new_user_salt (B : Bcrypt) (HB : BcryptCorrect B)
    (self self' : User.t) (password : str) (random_bytes : list N)
    (e : entropy) :
  User.__init__ self password random_bytes e = Ok self' ->
  length random_bytes = 16%nat
  /\ Uuid.uuid4_hex random_bytes = Ok (User.salt self')
  /\ length (User.salt self') = 32%nat
  /\ Forall (fun c => c ∈ lit "0123456789abcdef") (User.salt self')
  /\ User.check_password self' password = Ok true
  /\ User.first_name self' = User.first_name self
  /\ User.email self' = User.email self.
Proof.
  unfold User.__init__.
  destruct (Uuid.uuid4_hex random_bytes) as [hex|ex] eqn:Hhex;
    [|discriminate].
  change (Ok hex ≫= _) with
    (User.password_setter (User.set_salt self hex) password e).
  intros Hset.
  destruct (password_setter_inv _ _ _ _ _ Hset) as (digest & Hgen & ->).
  destruct (uuid4_hex_shape _ _ Hhex) as (Hlen & Hlen' & Hchars).
  cbn [User.salt User.set__password User.set_salt User.first_name User.email]
    in *.
  repeat (split; [first [exact Hlen|reflexivity|exact Hlen'|exact Hchars]|]).
  split; [|split; reflexivity].
  unfold User.check_password, User.password.
  cbn [User.salt User._password User.set__password User.set_salt].
  apply check_generate with (e := e). exact Hgen.
Qed.

Lemma new_user_salt_example :
  exists self',
    @User.__init__ Standins.truncating_bcrypt (Standins.some_user [])
      (lit "correct horse")
      [0; 1; 2; 3; 4; 5; 6; 7; 8; 9; 10; 11; 12; 13; 14; 15]%N 7%N = Ok self'
    /\ User.salt self' = lit "000102030405460788090a0b0c0d0e0f"
    /\ @User.check_password Standins.truncating_bcrypt self'
         (lit "correct horse") = Ok true.
Proof.
  destruct (@User.__init__ Standins.truncating_bcrypt (Standins.some_user [])
              (lit "correct horse")
              [0; 1; 2; 3; 4; 5; 6; 7; 8; 9; 10; 11; 12; 13; 14; 15]%N 7%N)
    as [self'|ex] eqn:Hinit; [|vm_compute in Hinit; discriminate].
  exists self'. split; [reflexivity|].
  pose proof (new_user_salt Standins.truncating_bcrypt
                truncating_bcrypt_correct _ _ _ _ _ Hinit)
    as (_ & Hhex & _ & _ & Hcheck & _).
  split; [|exact Hcheck].
  vm_compute in Hhex. injection Hhex as Hhex. symmetry. exact Hhex.
Defined.

(** X14. With sixteen random bytes [User.__init__] raises nothing of its
    own: the salt is always computed, and the constructor returns or raises
    exactly as the password setter does on the object carrying that salt,
    that is, as [bcrypt.generate_password_hash] does on password + salt. *)
Theorem new_user_raises_only_from_bcrypt (B : Bcrypt) (self : User.t)
    (password : str) (random_bytes : list N) (e : entropy) :
  length random_bytes = 16%nat ->
  Forall (fun b => (b < 256)%N) random_bytes ->
  exists hex,
    Uuid.uuid4_hex random_bytes = Ok hex
    /\ User.__init__ self password random_bytes e
       = (digest ← generate_password_hash (password ++ hex) e;
          Ok (User.set__password (User.set_salt self hex) digest)).
Proof.
  intros Hlen Hbytes.
  pose proof (int_from_bytes_below _ Hbytes) as Hint. rewrite Hlen in Hint.
  unfold User.__init__, Uuid.uuid4_hex.
  rewrite Hlen. cbn [Nat.eqb negb].
  destruct (N.ltb_spec (Uuid.int_from_bytes random_bytes) (N.shiftl 1 128))
    as [_|Hge]; [|exfalso; revert Hge; apply N.lt_nge; exact Hint].
  cbn [negb]. eexists. split; reflexivity.
Qed.

Lemma new_user_raises_only_from_bcrypt_example :
  exists hex,
    Uuid.uuid4_hex (repeat 255%N 16) = Ok hex
    /\ @User.__init__ Standins.truncating_bcrypt (Standins.some_user [])
         (lit "correct horse") (repeat 255%N 16) 7%N
       = (digest ← @generate_password_hash Standins.truncating_bcrypt
                     (lit "correct horse" ++ hex) 7%N;
          Ok (User.set__password
                (User.set_salt (Standins.some_user []) hex) digest)).
Proof.
  apply (new_user_raises_only_from_bcrypt Standins.truncating_bcrypt).
  - reflexivity.
  - repeat constructor.
Defined.

(** ** The identifier of a new event *)

(** X15. [Event.__init__] replaces whatever [id] the caller passed by the
    identifier that [generate_id] returns: the new event's [id] has ten
    characters of the alphabet (it fits the [String(10)] column) and no row
    in the table, and the other columns are as [Model.__init__] left
    them. *)
Theorem new_event_id (R : RandomSource) (fuel : nat)
    (events : gmap str Event.t) (self ev : Event.t) (s s' : rng) :
  Event.__init__ fuel events self s = Some (Ok ev, s') ->
  Event.generate_id fuel events s = Some (Ok (Event.id ev), s')
  /\ length (Event.id ev) = 10%nat
  /\ Forall (fun c => c ∈ Event.alphabet) (Event.id ev)
  /\ Event.query_get events (Event.id ev) = None
  /\ ev = Event.set_id self (Event.id ev).
Proof.
  unfold Event.__init__.
  destruct (Event.generate_id fuel events s) as [[[temp_id|e] s1]|] eqn:Hgen;
    [|discriminate|discriminate].
  intros Heq. inversion Heq; subst. cbn [Event.id Event.set_id].
  split; [reflexivity|].
  destruct (generate_id_return _ _ _ _ _ Hgen) as [s0 Hbody].
  apply generate_id_body_return in Hbody as [Hdraw Hfree].
  apply draw_ok in Hdraw as [Hlen Hall].
  repeat split; assumption.
Qed.

(** The caller passes the taken identifier "abcdefghij"; the new event
    gets "klmnopqrst". *)
Lemma new_event_id_example :
  Event.__init__ (H := Standins.counting_source) 2 Standins.busy_table
    (Standins.some_event (lit "abcdefghij")) 0%nat
  = Some (Ok (Standins.some_event (lit "klmnopqrst")), 20%nat)
  /\ Event.query_get Standins.busy_table (lit "klmnopqrst") = None.
Proof.
  split; [reflexivity|].
  apply (new_event_id Standins.counting_source 2 Standins.busy_table
           (Standins.some_event (lit "abcdefghij"))
           (Standins.some_event (lit "klmnopqrst")) 0%nat 20%nat eq_refl).
Defined.

(** ** The open-redirect check against the origin *)

(** C1. For every candidate target, [is_safe_url] returns true iff the URL
    obtained by resolving the candidate against the request origin has
    scheme "http" or "https" and a network location that is, character for
    character, the network location of the origin: the string [netloc],
    with the user information, the host and the port as they are written.
    Equal host and port are necessary for that.  Against an http or https
    origin that has a network location, the verdict is read off the
    candidate's own parse: it is safe iff it has no network location and no
    scheme or the origin's scheme, or it has the origin's network location
    and no scheme, "http" or "https".  Against the origin
    "https://app.example", "https://evil.example/x" is not safe,
    "/event/abc123" is safe and "javascript:alert(1)" is not safe. *)
Theorem is_safe_url_same_origin (D : UrlDeps) :
  (forall host_url target : str,
      Utils.is_safe_url host_url target = Ok true
      <-> exists (ref_url : Urllib.ParseResult) (resolved : str)
                 (test_url : Urllib.ParseResult),
            Urllib.urlparse host_url = Ok ref_url
            /\ Urllib.urljoin host_url target = Ok resolved
            /\ Urllib.urlparse resolved = Ok test_url
            /\ (Urllib.scheme test_url = lit "http"
                \/ Urllib.scheme test_url = lit "https")
            /\ Urllib.netloc test_url = Urllib.netloc ref_url)
  /\ (forall (host_url target resolved : str)
             (ref_url test_url : Urllib.ParseResult),
        Utils.is_safe_url host_url target = Ok true ->
        Urllib.urlparse host_url = Ok ref_url ->
        Urllib.urljoin host_url target = Ok resolved ->
        Urllib.urlparse resolved = Ok test_url ->
        Urllib._hostinfo test_url = Urllib._hostinfo ref_url)
  /\ (forall (host_url target : str) (ref_url : Urllib.ParseResult),
        Urllib.urlparse host_url = Ok ref_url ->
        Urllib.scheme ref_url = lit "http"
        \/ Urllib.scheme ref_url = lit "https" ->
        Urllib.netloc ref_url <> [] ->
        (Utils.is_safe_url host_url target = Ok true
         <-> exists u : Urllib.ParseResult,
               Urllib.urlparse target = Ok u
               /\ ((Urllib.netloc u = []
                    /\ (Urllib.scheme u = []
                        \/ Urllib.scheme u = Urllib.scheme ref_url))
                   \/ (Urllib.netloc u = Urllib.netloc ref_url
                       /\ (Urllib.scheme u = []
                           \/ Urllib.scheme u = lit "http"
                           \/ Urllib.scheme u = lit "https")))))
  /\ Utils.is_safe_url (lit "https://app.example/") (lit "https://evil.example/x")
     = Ok false
  /\ Utils.is_safe_url (lit "https://app.example/") (lit "/event/abc123")
     = Ok true
  /\ Utils.is_safe_url (lit "https://app.example/") (lit "javascript:alert(1)")
     = Ok false
  /\ Utils.is_safe_url (lit "https://app.example") (lit "https://evil.example/x")
     = Ok false
  /\ Utils.is_safe_url (lit "https://app.example") (lit "/event/abc123")
     = Ok true
  /\ Utils.is_safe_url (lit "https://app.example") (lit "javascript:alert(1)")
     = Ok false.
Proof.
  assert (Hiff : forall host_url target : str,
             Utils.is_safe_url host_url target = Ok true
             <-> exists (ref_url : Urllib.ParseResult) (resolved : str)
                        (test_url : Urllib.ParseResult),
                   Urllib.urlparse host_url = Ok ref_url
                   /\ Urllib.urljoin host_url target = Ok resolved
                   /\ Urllib.urlparse resolved = Ok test_url
                   /\ (Urllib.scheme test_url = lit "http"
                       \/ Urllib.scheme test_url = lit "https")
                   /\ Urllib.netloc test_url = Urllib.netloc ref_url).
  { intros host_url target. unfold Utils.is_safe_url.
    destruct (Urllib.urlparse host_url) as [ref_url|e1]; simpl.
    - destruct (Urllib.urljoin host_url target) as [resolved|e2]; simpl.
      + destruct (Urllib.urlparse resolved) as [test_url|e3] eqn:Htest; simpl.
        * split.
          -- intros [= Hsafe].
             apply andb_true_iff in Hsafe as [Hscheme Hnetloc].
             apply member_http_https in Hscheme.
             apply bool_decide_eq_true in Hnetloc.
             exists ref_url, resolved, test_url. auto.
          -- intros (r & j & t & [= <-] & [= <-] & Ht & Hscheme & Hnetloc).
             rewrite Htest in Ht. injection Ht as <-.
             f_equal. apply andb_true_iff. split.
             ++ apply member_http_https, Hscheme.
             ++ apply bool_decide_eq_true. congruence.
        * split; [discriminate|].
          intros (r & j & t & _ & [= <-] & Ht & _). congruence.
      + split; [discriminate|]. intros (r & j & t & _ & [=] & _).
    - split; [discriminate|]. intros (r & j & t & [=] & _). }
  split; [exact Hiff|]. split; [|split].
  - intros host_url target resolved ref_url test_url Hsafe Href Hjoin Htest.
    apply Hiff in Hsafe as (r & j & t & Hr & Hj & Ht & _ & Hnetloc).
    assert (r = ref_url) by congruence. assert (j = resolved) by congruence.
    subst r j. assert (t = test_url) by congruence. subst t.
    unfold Urllib._hostinfo. rewrite Hnetloc. reflexivity.
  - intros host_url target ref_url Href Hhttp Hn.
    rewrite (is_safe_url_by_target_lemma D host_url target ref_url
               Href Hhttp Hn).
    destruct (Urllib.urlparse target) as [u|e];
      cbn [mbind result_bind Py.bind].
    + split.
      * intros Hsafe. injection Hsafe as Hsafe.
        exists u. split; [reflexivity|].
        destruct (Urllib.truthy (Urllib.netloc u)) eqn:Ht.
        -- right. apply andb_true_iff in Hsafe as [Hm Heq].
           apply bool_decide_eq_true in Heq.
           assert (Hin : Urllib.member (Urllib.scheme u)
                           [[]; lit "http"; lit "https"] = true) by exact Hm.
           apply member_spec in Hin. clear Hm. rename Hin into Hm.
           split; [congruence|].
           destruct Hm as [Hm|[Hm|[Hm|[]]]]; auto.
        -- left. split; [apply truthy_false, Ht|].
           apply orb_true_iff in Hsafe as [Heq|Heq];
             apply bool_decide_eq_true in Heq; auto.
      * intros (u' & Hu & Hcases). injection Hu as <-. f_equal.
        destruct Hcases as [[Hnetloc Hscheme]|[Hnetloc Hscheme]].
        -- apply truthy_false in Hnetloc. rewrite Hnetloc.
           apply orb_true_iff.
           destruct Hscheme as [Hs|Hs]; [left|right];
             apply bool_decide_eq_true; exact Hs.
        -- assert (Ht : Urllib.truthy (Urllib.netloc u) = true)
             by (apply truthy_true; congruence).
           rewrite Ht. apply andb_true_iff. split.
           ++ apply member_spec.
              destruct Hscheme as [Hs|[Hs|Hs]]; rewrite Hs; cbn [In]; auto.
           ++ apply bool_decide_eq_true. congruence.
    + split; [discriminate|]. intros (u & Hu & _). discriminate Hu.
  - repeat split; vm_compute; reflexivity.
Qed.

(** C1 as stated fails in its "if" direction, where the network location
    is read as host and port.  Against "https://app.example/", the target
    "https://user@app.example/x" resolves to itself, with scheme "https"
    and with the host and the port of the origin, and is not safe: its
    network location is "user@app.example".  The same holds with an empty
    port, "https://app.example:/x"; the default port written out and the
    host in upper case are not safe either. *)
Lemma is_safe_url_same_host_port_rejected :
  Urllib.urlparse (H := Standins.ascii_url_deps) (lit "https://app.example/")
  = Ok (Urllib.mkParse (lit "https") (lit "app.example") (lit "/") [] [] [])
  /\ Urllib.urljoin (H := Standins.ascii_url_deps) (lit "https://app.example/")
       (lit "https://user@app.example/x")
     = Ok (lit "https://user@app.example/x")
  /\ Urllib.urlparse (H := Standins.ascii_url_deps)
       (lit "https://user@app.example/x")
     = Ok (Urllib.mkParse (lit "https") (lit "user@app.example") (lit "/x")
             [] [] [])
  /\ Urllib._hostinfo
       (Urllib.mkParse (lit "https") (lit "user@app.example") (lit "/x")
          [] [] [])
     = Urllib._hostinfo
         (Urllib.mkParse (lit "https") (lit "app.example") (lit "/") [] [] [])
  /\ Utils.is_safe_url (H := Standins.ascii_url_deps)
       (lit "https://app.example/") (lit "https://user@app.example/x")
     = Ok false
  /\ Urllib.urlparse (H := Standins.ascii_url_deps)
       (lit "https://app.example:/x")
     = Ok (Urllib.mkParse (lit "https") (lit "app.example:") (lit "/x")
             [] [] [])
  /\ Urllib._hostinfo
       (Urllib.mkParse (lit "https") (lit "app.example:") (lit "/x") [] [] [])
     = Urllib._hostinfo
         (Urllib.mkParse (lit "https") (lit "app.example") (lit "/") [] [] [])
  /\ Utils.is_safe_url (H := Standins.ascii_url_deps)
       (lit "https://app.example/") (lit "https://app.example:/x")
     = Ok false
  /\ Utils.is_safe_url (H := Standins.ascii_url_deps)
       (lit "https://app.example/") (lit "https://app.example:443/x")
     = Ok false
  /\ Utils.is_safe_url (H := Standins.ascii_url_deps)
       (lit "https://app.example/") (lit "https://APP.EXAMPLE/x")
     = Ok false.
Proof. repeat split; vm_compute; reflexivity. Qed.
